(** * BERT pre-training data preparation (oslo.transformers.tasks.data_bert_pretraining)

    A shallow embedding of [ProcessorForBertPretraining] (the streaming
    chunker) and of [DataCollatorForBertPretraining] (sentence-order
    examples and sequence-parallel sharding), with the properties the
    specification states about them.

    Conventions.
    - Python [int] is [Z]; [//] and [%] are floor division and modulo, which
      is what [Z.div] and [Z.modulo] compute for a non-zero divisor; a zero
      divisor is written out as [ZeroDivisionError].
    - A Python exception is its class name and its message; the messages
      are abridged, the class is what the properties are about.
    - A [while] loop runs on fuel; running out of fuel is the outcome
      [OutOfFuel], distinct from returning and from raising.
    - The object state survives an exception, so a method is a function
      from the state to an outcome and a state. *)

From stdpp Require Import gmap strings list fin_maps.
From Stdlib Require Import ZArith Lia.

(** ** Exceptions and outcomes *)

Record exn := Exn { exn_class : string; exn_msg : string }.

Definition AssertionError (msg : string) : exn := Exn "AssertionError" msg.
Definition KeyError (key : string) : exn := Exn "KeyError" key.
Definition ValueError (msg : string) : exn := Exn "ValueError" msg.
Definition IndexError (msg : string) : exn := Exn "IndexError" msg.
Definition RuntimeError (msg : string) : exn := Exn "RuntimeError" msg.
Definition ZeroDivisionError : exn :=
  Exn "ZeroDivisionError" "integer division or modulo by zero".

Inductive res (A : Type) : Type :=
| Ok (a : A)
| Raise (e : exn)
| OutOfFuel.
Arguments Ok {A} a.
Arguments Raise {A} e.
Arguments OutOfFuel {A}.

(** A method of an object with state [S]. *)
Definition M (S A : Type) : Type := S → res A * S.

Definition ret {S A} (a : A) : M S A := λ s, (Ok a, s).
Definition raise {S A} (e : exn) : M S A := λ s, (Raise e, s).
Definition bind {S A B} (m : M S A) (k : A → M S B) : M S B :=
  λ s, match m s with
       | (Ok a, s') => k a s'
       | (Raise e, s') => (Raise e, s')
       | (OutOfFuel, s') => (OutOfFuel, s')
       end.

Notation "'let*' x := m 'in' k" := (bind m (λ x, k))
  (at level 10, x pattern, m at level 100, k at level 200, only parsing).

(** [raises c r]: the outcome [r] is an exception of class [c]. *)
Definition raises {A} (c : string) (r : res A) : Prop :=
  ∃ e, r = Raise e ∧ exn_class e = c.

(** ** Python slicing on lists

    [l[:k]] and [l[k:]]: a negative bound counts from the end, and both are
    clamped to [0 .. len(l)]. *)

Definition slice_bound (len k : Z) : nat :=
  Z.to_nat (if (k <? 0)%Z then Z.max (len + k) 0 else Z.min k len).

Definition slice_to {A} (l : list A) (k : Z) : list A :=
  take (slice_bound (Z.of_nat (length l)) k) l.

Definition slice_from {A} (l : list A) (k : Z) : list A :=
  drop (slice_bound (Z.of_nat (length l)) k) l.

(** ** ProcessorForBertPretraining *)

Module Processor.

(** The instance state: [_chunk_size] and [_buffer] are the attributes of the
    source; [tokenizer_calls] is a ghost log of the arguments of every call
    of [self._tokenizer], oldest first. *)
Record t := Build {
  _chunk_size : Z;
  _buffer : list Z;
  tokenizer_calls : list (list string)
}.

(** Modelled from the spec: [BaseProcessor.__init__]
    (oslo/transformers/tasks/data_base.py is not among the sources) creates
    the buffer empty; line 17 then sets [_chunk_size = max_length - 3]. *)
Definition __init__ (max_length : Z) : t :=
  {| _chunk_size := (max_length - 3)%Z; _buffer := []; tokenizer_calls := [] |}.

Definition assert_msg : string :=
  "The name of dataset column that you want to tokenize must be 'text'".

Section WithTokenizer.

(** The tokenizer is an external collaborator: the ids of one text (no
    padding, no truncation) and the separator id. *)
Variable tokenize : string → list Z.
Variable sep_token_id : Z.

(** Lines 40-43: the [while] loop, on the output list and the buffer. *)
Fixpoint drain (fuel : nat) (chunk_size : Z)
    (out : list (list Z)) (buffer : list Z) : option (list (list Z) * list Z) :=
  if (chunk_size <=? Z.of_nat (length buffer))%Z then
    match fuel with
    | O => None
    | S fuel' =>
        let chunk_ids := slice_to buffer chunk_size in
        drain fuel' chunk_size (out ++ [chunk_ids]) (slice_from buffer chunk_size)
    end
  else Some (out, buffer).

(** Lines 36-43: the [for] loop over the tokenized texts. *)
Fixpoint for_input_ids (fuel : nat) (chunk_size : Z) (list_of_input_ids : list (list Z))
    (out : list (list Z)) (buffer : list Z) : option (list (list Z) * list Z) :=
  match list_of_input_ids with
  | [] => Some (out, buffer)
  | input_ids :: rest =>
      let input_ids := input_ids ++ [sep_token_id] in
      match drain fuel chunk_size out (buffer ++ input_ids) with
      | None => None
      | Some (out', buffer') => for_input_ids fuel chunk_size rest out' buffer'
      end
  end.

(** Lines 19-45. [examples] is the batch: a mapping from column name to the
    column's texts. *)
Definition __call__ (fuel : nat) (examples : gmap string (list string))
    : M t (gmap string (list (list Z))) := λ self,
  let column_names := (map_to_list examples).*1 in
  if bool_decide ("text" ∈ column_names) then
    match examples !! "text" with
    | None => (Raise (KeyError "text"), self)
    | Some texts =>
        let list_of_input_ids := tokenize <$> texts in
        let self := {| _chunk_size := _chunk_size self;
                       _buffer := _buffer self;
                       tokenizer_calls := tokenizer_calls self ++ [texts] |} in
        match for_input_ids fuel (_chunk_size self) list_of_input_ids [] (_buffer self) with
        | None => (OutOfFuel, self)
        | Some (out, buffer) =>
            (Ok {[ "input_ids" := out ]},
             {| _chunk_size := _chunk_size self;
                _buffer := buffer;
                tokenizer_calls := tokenizer_calls self |})
        end
    end
  else (Raise (AssertionError assert_msg), self).

(** Consecutive calls on one instance; the first call that does not return
    ends the run. *)
Fixpoint calls (fuel : nat) (batches : list (gmap string (list string)))
    : M t (list (gmap string (list (list Z)))) :=
  match batches with
  | [] => ret []
  | examples :: rest =>
      let* d := __call__ fuel examples in
      let* ds := calls fuel rest in
      ret (d :: ds)
  end.

(** The chunks a returned mapping holds, and those of a run, in emission
    order. *)
Definition chunks_of (d : gmap string (list (list Z))) : list (list Z) :=
  default [] (d !! "input_ids").

Definition emitted (ds : list (gmap string (list (list Z)))) : list (list Z) :=
  ds ≫= chunks_of.

(** The token stream of a batch and of a run: each text's ids followed by
    the separator, in input order. *)
Definition stream_of_texts (texts : list string) : list Z :=
  texts ≫= (λ text, tokenize text ++ [sep_token_id]).

Definition stream_of (examples : gmap string (list string)) : list Z :=
  stream_of_texts (default [] (examples !! "text")).

Definition stream (batches : list (gmap string (list string))) : list Z :=
  batches ≫= stream_of.

End WithTokenizer.

End Processor.

(** ** Insertion-ordered dictionaries

    The tensor batch is a Python [dict] that the collator iterates over and
    assigns into; an association list with distinct keys keeps its order. *)

Module Dict.

Section Ops.
Context {V : Type}.

Fixpoint get (key : string) (d : list (string * V)) : option V :=
  match d with
  | [] => None
  | (k, v) :: rest => if String.eqb k key then Some v else get key rest
  end.

(** [d[key] = v]: an existing key keeps its place, a new one goes last. *)
Fixpoint set (key : string) (v : V) (d : list (string * V)) : list (string * V) :=
  match d with
  | [] => [(key, v)]
  | (k, v') :: rest =>
      if String.eqb k key then (k, v) :: rest else (k, v') :: set key v rest
  end.

Fixpoint remove (key : string) (d : list (string * V)) : list (string * V) :=
  match d with
  | [] => []
  | (k, v) :: rest => if String.eqb k key then rest else (k, v) :: remove key rest
  end.

(** [d.pop(key)] *)
Definition pop (key : string) (d : list (string * V)) : res (V * list (string * V)) :=
  match get key d with
  | Some v => Ok (v, remove key d)
  | None => Raise (KeyError key)
  end.

(** [d[key]] *)
Definition item (key : string) (d : list (string * V)) : res V :=
  match get key d with
  | Some v => Ok v
  | None => Raise (KeyError key)
  end.

End Ops.

End Dict.

(** ** Tensors

    Integer tensors by value, with the operations of PyTorch that the
    collator calls ([torch.full], [torch.cat], [Tensor.chunk], [narrow]),
    written after their documented behaviour. A field of the batch has either fewer than two
    dimensions ([Low], which the collator never looks into) or exactly two
    ([Mat]: the sequence length and the rows, each row of that length; the
    batch size is the number of rows). *)

Module Tensor.

Inductive t : Type :=
| Low (data : list Z)
| Mat (seq_length : nat) (rows : list (list Z)).

Definition dim (value : t) : Z :=
  match value with Low _ => 1%Z | Mat _ _ => 2%Z end.

Definition wf (value : t) : Prop :=
  match value with
  | Low _ => True
  | Mat n rows => Forall (λ row, length row = n) rows
  end.

(** [torch.full([batch_size, n], fill_value)] *)
Definition full (batch_size : nat) (n : Z) (fill_value : Z) : res t :=
  if (n <? 0)%Z then
    Raise (RuntimeError "Trying to create tensor with negative dimension")
  else Ok (Mat (Z.to_nat n) (replicate batch_size (replicate (Z.to_nat n) fill_value))).

(** [torch.cat([a, b], axis=1)] *)
Definition cat2 (a b : t) : res t :=
  match a, b with
  | Mat n rows, Mat n' rows' =>
      if bool_decide (length rows = length rows') then
        Ok (Mat (n + n') (zip_with app rows rows'))
      else Raise (RuntimeError "Sizes of tensors must match except in dimension 1")
  | _, _ => Raise (IndexError "Dimension out of range")
  end.

(** [torch.cat(tensors, axis=1)] for a non-empty list. *)
Fixpoint cat (tensors : list t) : res t :=
  match tensors with
  | [] => Raise (RuntimeError "torch.cat(): expected a non-empty list of Tensors")
  | [a] => match a with
           | Mat _ _ => Ok a
           | Low _ => Raise (IndexError "Dimension out of range")
           end
  | a :: rest =>
      match cat rest with
      | Ok b => cat2 a b
      | Raise e => Raise e
      | OutOfFuel => OutOfFuel
      end
  end.

(** [value.narrow(1, start, len)] *)
Definition narrow (start len : nat) (rows : list (list Z)) : t :=
  Mat len ((λ row, take len (drop start row)) <$> rows).

(** [value.chunk(chunks, dim=1)]: pieces of [ceil(seq_length / chunks)]
    columns, the last one possibly shorter; a sequence of length zero gives
    [chunks] empty pieces. *)
Definition chunk (chunks : Z) (value : t) : res (list t) :=
  match value with
  | Low _ => Raise (IndexError "Dimension out of range")
  | Mat n rows =>
      if (chunks <=? 0)%Z then
        Raise (RuntimeError "chunk expects `chunks` to be greater than 0")
      else
        let dim_size := Z.of_nat n in
        let split_size := ((dim_size + chunks - 1) / chunks)%Z in
        if (split_size =? 0)%Z then
          Ok (replicate (Z.to_nat chunks) (narrow 0 0 rows))
        else
          let num_splits := Z.max ((dim_size + split_size - 1) / split_size)%Z 1 in
          let last_split_size := (split_size - (split_size * num_splits - dim_size))%Z in
          Ok ((λ i : nat,
                 narrow (i * Z.to_nat split_size)
                        (Z.to_nat (if (Z.of_nat i <? num_splits - 1)%Z
                                   then split_size else last_split_size))
                        rows)
              <$> seq 0 (Z.to_nat num_splits))
  end.

End Tensor.

(** [t[i]] on a tuple or list: a negative index counts from the end. *)
Definition py_index {A} (l : list A) (i : Z) : res A :=
  let i' := if (i <? 0)%Z then (i + Z.of_nat (length l))%Z else i in
  if (i' <? 0)%Z then Raise (IndexError "tuple index out of range")
  else match l !! Z.to_nat i' with
       | Some x => Ok x
       | None => Raise (IndexError "tuple index out of range")
       end.

(** ** DataCollatorForBertPretraining *)

Module Collator.

(** Modelled from the spec: [ParallelContext] (oslo.torch.distributed is not
    among the sources) answers [get_local_rank(ParallelMode.SEQUENCE)] and
    [get_world_size(ParallelMode.SEQUENCE)]; the two answers are all the
    collator reads of it. *)
Record ParallelContext := {
  get_local_rank : Z;
  get_world_size : Z
}.

(** The attributes [__init__] sets. [local_rank] and [local_world_size] exist
    only when a parallel context was given. The masking probability is read
    by the inherited masking methods alone, which are parameters below. *)
Record t := Build {
  pad_to_multiple_of : option Z;
  pad_token_id : Z;
  parallel_context : option ParallelContext;
  local_rank : option Z;
  local_world_size : option Z
}.

(** Lines 53-67. [tokenizer_pad_token_id] is [processor._tokenizer.pad_token_id]. *)
Definition __init__ (tokenizer_pad_token_id : Z) (pad_to_multiple_of : option Z)
    (parallel_context : option ParallelContext) : res t :=
  Ok {| pad_to_multiple_of := pad_to_multiple_of;
        pad_token_id := tokenizer_pad_token_id;
        parallel_context := parallel_context;
        local_rank := get_local_rank <$> parallel_context;
        local_world_size := get_world_size <$> parallel_context |}.

(** One example as Stage A builds it (lines 134-139). *)
Record Example := {
  input_ids : list Z;
  token_type_ids : list Z;
  next_sentence_label : Z;
  mask_label : list Z
}.

(** *** Stage C: sequence-parallel sharding of one field *)

(** Lines 84-97: the padding of a two-dimensional field before the split. *)
Definition pad_for_split (self_pad_token_id local_world_size : Z)
    (key : string) (value : Tensor.t) : res Tensor.t :=
  match value with
  | Tensor.Low _ => Raise (ValueError "not enough values to unpack")
  | Tensor.Mat n rows =>
      let batch_size := length rows in
      let seq_length := Z.of_nat n in
      if (local_world_size =? 0)%Z then Raise ZeroDivisionError
      else if negb (seq_length mod local_world_size =? 0)%Z then
        let required_length :=
          ((seq_length / local_world_size + 1) * local_world_size)%Z in
        let difference := (required_length - seq_length)%Z in
        let pads :=
          if String.eqb key "labels" then
            Tensor.full batch_size difference (-100)
          else if String.eqb key "token_type_ids" then
            Tensor.full batch_size difference 1
          else if String.eqb key "attention_mask" then
            Tensor.full batch_size difference 0
          else
            Tensor.full batch_size difference self_pad_token_id in
        match pads with
        | Ok pads => Tensor.cat2 value pads
        | Raise e => Raise e
        | OutOfFuel => OutOfFuel
        end
      else Ok value
  end.

(** Lines 82-105 for a field of two dimensions: pad, split, keep the piece
    of this rank. [contiguous] changes the memory layout only. *)
Definition shard (self_pad_token_id local_world_size local_rank : Z)
    (key : string) (value : Tensor.t) : res Tensor.t :=
  match pad_for_split self_pad_token_id local_world_size key value with
  | Ok value =>
      match Tensor.chunk local_world_size value with
      | Ok pieces => py_index pieces local_rank
      | Raise e => Raise e
      | OutOfFuel => OutOfFuel
      end
  | Raise e => Raise e
  | OutOfFuel => OutOfFuel
  end.

(** Lines 78-107: the loop over [batch.items()], assigning into [batch]. *)
Fixpoint shard_items (self_pad_token_id local_world_size local_rank : Z)
    (items : list (string * Tensor.t)) (batch : list (string * Tensor.t))
    : res (list (string * Tensor.t)) :=
  match items with
  | [] => Ok batch
  | (key, value) :: rest =>
      if (Tensor.dim value <? 2)%Z then
        shard_items self_pad_token_id local_world_size local_rank rest batch
      else
        match shard self_pad_token_id local_world_size local_rank key value with
        | Ok value =>
            shard_items self_pad_token_id local_world_size local_rank rest
              (Dict.set key value batch)
        | Raise e => Raise e
        | OutOfFuel => OutOfFuel
        end
  end.

Section WithCollaborators.

(** The random sources ([random] and torch's generator) are a state [rng].
    [randbelow n] is [Random._randbelow(n)] and [random_lt_half] is the
    outcome of [random.random() < 0.5]. *)
Variable rng : Type.
Variable randbelow : Z → rng → Z * rng.
Variable random_lt_half : rng → bool * rng.

(** The tokenizer and the methods inherited from
    [DataCollatorForWholeWordMask] are external collaborators. *)
Variable build_inputs_with_special_tokens : list Z → list Z → list Z.
Variable create_token_type_ids_from_sequences : list Z → list Z → list Z.
Variable convert_ids_to_tokens : list Z → list string.
Variable _whole_word_mask : list string → M rng (list Z).
Variable tokenizer_pad : list Example → option Z → M rng (list (string * Tensor.t)).
Variable torch_mask_tokens : Tensor.t → Tensor.t → M rng (Tensor.t * Tensor.t).

Definition lift {A} (r : res A) : M rng A := λ g, (r, g).

(** [random.randrange(start, stop)] *)
Definition randrange (start stop : Z) : M rng Z :=
  let width := (stop - start)%Z in
  if (0 <? width)%Z then
    λ g, let (k, g') := randbelow width g in (Ok (start + k)%Z, g')
  else raise (ValueError "empty range for randrange()").

(** Lines 115-117. *)
Definition choose_split_position (chunk_ids : list Z) : M rng Z :=
  let seq_length := Z.of_nat (length chunk_ids) in
  let start := (seq_length / 3)%Z in
  let end_ := (seq_length / 3 * 2)%Z in
  randrange start end_.

(** Lines 120-125. *)
Definition segments (chunk_ids : list Z) (split_position : Z) (reverse : bool)
    : list Z * list Z :=
  if reverse then
    (slice_from chunk_ids split_position, slice_to chunk_ids split_position)
  else
    (slice_to chunk_ids split_position, slice_from chunk_ids split_position).

(** Lines 114-139: the body of the loop, for one example. *)
Definition prepare_example (example : gmap string (list Z)) : M rng Example :=
  let* chunk_ids :=
    lift (match example !! "input_ids" with
          | Some v => Ok v
          | None => Raise (KeyError "input_ids")
          end) in
  let* split_position := choose_split_position chunk_ids in
  let* reverse := (λ g, let (b, g') := random_lt_half g in (Ok b, g')) in
  let '(token_a, token_b) := segments chunk_ids split_position reverse in
  let input_ids := build_inputs_with_special_tokens token_a token_b in
  let token_type_ids := create_token_type_ids_from_sequences token_a token_b in
  let sentence_order_label := if reverse then 1%Z else 0%Z in
  let ref_tokens := convert_ids_to_tokens input_ids in
  let* mask_label := _whole_word_mask ref_tokens in
  ret {| input_ids := input_ids;
         token_type_ids := token_type_ids;
         next_sentence_label := sentence_order_label;
         mask_label := mask_label |}.

(** Lines 111-141. *)
Fixpoint _prepare_wwm_and_sop_from_examples (examples : list (gmap string (list Z)))
    : M rng (list Example) :=
  match examples with
  | [] => ret []
  | example :: rest =>
      let* e := prepare_example example in
      let* output_examples := _prepare_wwm_and_sop_from_examples rest in
      ret (e :: output_examples)
  end.

(** Lines 69-109. *)
Definition __call__ (self : t) (examples : list (gmap string (list Z)))
    : M rng (list (string * Tensor.t)) :=
  let* examples := _prepare_wwm_and_sop_from_examples examples in
  let* batch := tokenizer_pad examples (pad_to_multiple_of self) in
  let* popped := lift (Dict.pop "mask_label" batch) in
  let '(batch_mask, batch) := popped in
  let* ids := lift (Dict.item "input_ids" batch) in
  let* masked := torch_mask_tokens ids batch_mask in
  let batch := Dict.set "labels" masked.2 (Dict.set "input_ids" masked.1 batch) in
  match parallel_context self with
  | None => ret batch
  | Some _ =>
      match local_world_size self, local_rank self with
      | Some world_size, Some rank =>
          lift (shard_items (pad_token_id self) world_size rank batch batch)
      | _, _ => raise (Exn "AttributeError" "local_world_size")
      end
  end.

End WithCollaborators.

End Collator.

(** ** Concrete collaborators

    A byte-level tokenizer with BERT's special ids, and a counter as random
    source: enough to run both classes on concrete inputs. *)

Module Toy.

Definition tokenize (text : string) : list Z :=
  (λ c, Z.of_nat (Ascii.nat_of_ascii c)) <$> String.list_ascii_of_string text.

Definition sep_token_id : Z := 102.
Definition cls_token_id : Z := 101.
Definition pad_token_id : Z := 0.

(** The random source: the n-th draw is computed from n. *)
Definition rng : Type := nat.

Definition randbelow (n : Z) (g : rng) : Z * rng := ((Z.of_nat g) mod n, S g)%Z.

Definition random_lt_half (g : rng) : bool * rng := (Nat.even g, S g).

Definition build_inputs_with_special_tokens (a b : list Z) : list Z :=
  [cls_token_id] ++ a ++ [sep_token_id] ++ b ++ [sep_token_id].

Definition create_token_type_ids_from_sequences (a b : list Z) : list Z :=
  replicate (length a + 2) 0%Z ++ replicate (length b + 1) 1%Z.

Definition convert_ids_to_tokens (ids : list Z) : list string :=
  (λ _, "tok") <$> ids.

Definition _whole_word_mask (tokens : list string) : M rng (list Z) :=
  ret ((λ _, 0%Z) <$> tokens).

Definition pad_row (n : nat) (fill : Z) (row : list Z) : list Z :=
  row ++ replicate (n - length row) fill.

(** Pads every field to the longest example; [pad_to_multiple_of] is not
    used by this stand-in. *)
Definition tokenizer_pad (examples : list Collator.Example) (_ : option Z)
    : M rng (list (string * Tensor.t)) :=
  match examples with
  | [] => raise (IndexError "list index out of range")
  | _ =>
      let n := max_list ((λ e, length (Collator.input_ids e)) <$> examples) in
      ret [ ("input_ids",
             Tensor.Mat n ((λ e, pad_row n pad_token_id (Collator.input_ids e)) <$> examples));
            ("token_type_ids",
             Tensor.Mat n ((λ e, pad_row n 0 (Collator.token_type_ids e)) <$> examples));
            ("next_sentence_label",
             Tensor.Low (Collator.next_sentence_label <$> examples));
            ("mask_label",
             Tensor.Mat n ((λ e, pad_row n 0 (Collator.mask_label e)) <$> examples));
            ("attention_mask",
             Tensor.Mat n ((λ e, pad_row n 0 ((λ _, 1%Z) <$> Collator.input_ids e)) <$> examples)) ]
  end.

(** Masks nothing: the ids are kept and every label is the ignore value. *)
Definition torch_mask_tokens (ids mask : Tensor.t) : M rng (Tensor.t * Tensor.t) :=
  match ids with
  | Tensor.Mat n rows => ret (ids, Tensor.Mat n ((λ row : list Z, (λ _, (-100)%Z) <$> row) <$> rows))
  | Tensor.Low _ => raise (IndexError "too many indices for tensor")
  end.

(** A padding that loses the mask field, to run the path on which
    [batch.pop("mask_label")] finds nothing. *)
Definition tokenizer_pad_without_mask (examples : list Collator.Example)
    (multiple : option Z) : M rng (list (string * Tensor.t)) := λ g,
  match tokenizer_pad examples multiple g with
  | (Ok batch, g') => (Ok (Dict.remove "mask_label" batch), g')
  | other => other
  end.

Definition collate (self : Collator.t) (examples : list (gmap string (list Z)))
    : M rng (list (string * Tensor.t)) :=
  Collator.__call__ rng randbelow random_lt_half
    build_inputs_with_special_tokens create_token_type_ids_from_sequences
    convert_ids_to_tokens _whole_word_mask tokenizer_pad torch_mask_tokens
    self examples.

Definition prepare (examples : list (gmap string (list Z)))
    : M rng (list Collator.Example) :=
  Collator._prepare_wwm_and_sop_from_examples rng randbelow random_lt_half
    build_inputs_with_special_tokens create_token_type_ids_from_sequences
    convert_ids_to_tokens _whole_word_mask examples.

End Toy.

(** ** The specification's wording of Stage C, for comparison

    The fill value by field role, and the padded length
    [ceil(seq_length / world_size) * world_size]. *)

Definition spec_fill_value (pad_token_id : Z) (key : string) : Z :=
  if decide (key = "labels") then (-100)%Z
  else if decide (key = "token_type_ids") then 1%Z
  else if decide (key = "attention_mask") then 0%Z
  else pad_token_id.

Definition spec_required_length (seq_length world_size : Z) : Z :=
  ((seq_length + world_size - 1) / world_size * world_size)%Z.

(** * Properties of the processor *)

Section SliceFacts.
Context {A : Type}.
Implicit Types l : list A.

Lemma slice_to_from l (k : Z) : slice_to l k ++ slice_from l k = l.
Proof. unfold slice_to, slice_from. apply take_drop. Qed.

Lemma slice_to_nonneg l (k : Z) :
  (0 ≤ k ≤ Z.of_nat (length l))%Z → slice_to l k = take (Z.to_nat k) l.
Proof.
  intros Hk. unfold slice_to, slice_bound.
  destruct (Z.ltb_spec k 0); [lia|]. f_equal. lia.
Qed.

Lemma slice_from_nonneg l (k : Z) :
  (0 ≤ k ≤ Z.of_nat (length l))%Z → slice_from l k = drop (Z.to_nat k) l.
Proof.
  intros Hk. unfold slice_from, slice_bound.
  destruct (Z.ltb_spec k 0); [lia|]. f_equal. lia.
Qed.

Lemma slice_from_length_pos l (k : Z) :
  (0 < k ≤ Z.of_nat (length l))%Z →
  length (slice_from l k) = length l - Z.to_nat k.
Proof. intros Hk. rewrite slice_from_nonneg by lia. apply length_drop. Qed.

End SliceFacts.

Section ProcessorFacts.
Import Processor.

Variable tokenize : string → list Z.
Variable sep_token_id : Z.

Lemma drain_conserves fuel cs out buffer out' buffer' :
  drain fuel cs out buffer = Some (out', buffer') →
  concat out' ++ buffer' = concat out ++ buffer.
Proof.
  revert out buffer. induction fuel as [|fuel IH]; intros out buffer; simpl.
  - destruct (cs <=? _)%Z; [done|]. by intros [= <- <-].
  - destruct (cs <=? _)%Z; [|by intros [= <- <-]].
    intros H. apply IH in H. rewrite H, concat_app. simpl.
    rewrite app_nil_r, <- app_assoc. by rewrite slice_to_from.
Qed.

Lemma drain_exit fuel cs out buffer out' buffer' :
  drain fuel cs out buffer = Some (out', buffer') →
  (Z.of_nat (length buffer') < cs)%Z.
Proof.
  revert out buffer. induction fuel as [|fuel IH]; intros out buffer; simpl.
  - destruct (Z.leb_spec cs (Z.of_nat (length buffer))); [done|]. intros [= <- <-]. lia.
  - destruct (Z.leb_spec cs (Z.of_nat (length buffer))).
    + apply IH.
    + intros [= <- <-]. lia.
Qed.

(** Below the chunk size, the loop body never runs. *)
Lemma drain_below fuel cs out buffer :
  (Z.of_nat (length buffer) < cs)%Z → drain fuel cs out buffer = Some (out, buffer).
Proof.
  intros H. destruct fuel; simpl; destruct (Z.leb_spec cs (Z.of_nat (length buffer))); done || lia.
Qed.

(** With a positive chunk size the loop ends: fuel equal to the buffer
    length is enough, and the buffer does not grow. *)
Lemma drain_returns fuel cs out buffer :
  (0 < cs)%Z → length buffer ≤ fuel →
  ∃ out' buffer', drain fuel cs out buffer = Some (out', buffer')
                  ∧ length buffer' ≤ length buffer.
Proof.
  intros Hcs. revert out buffer. induction fuel as [|fuel IH]; intros out buffer Hlen; simpl.
  - destruct (Z.leb_spec cs (Z.of_nat (length buffer))); [lia|]. eauto.
  - destruct (Z.leb_spec cs (Z.of_nat (length buffer))); [|eauto].
    assert (Hl : length (slice_from buffer cs) = length buffer - Z.to_nat cs)
      by (apply slice_from_length_pos; lia).
    destruct (IH (out ++ [slice_to buffer cs]) (slice_from buffer cs)) as (o & b & -> & Hb); [lia|].
    exists o, b. split; [done|lia].
Qed.

(** With a chunk size of zero or less the loop never ends, whatever the
    buffer holds. *)
Lemma drain_diverges fuel cs out buffer :
  (cs ≤ 0)%Z → drain fuel cs out buffer = None.
Proof.
  intros Hcs. revert out buffer. induction fuel as [|fuel IH]; intros out buffer; simpl;
    destruct (Z.leb_spec cs (Z.of_nat (length buffer))); try lia; auto.
Qed.

Definition with_sep (list_of_input_ids : list (list Z)) : list Z :=
  list_of_input_ids ≫= (λ ids, ids ++ [sep_token_id]).

Lemma for_input_ids_conserves fuel cs l out buffer out' buffer' :
  for_input_ids sep_token_id fuel cs l out buffer = Some (out', buffer') →
  concat out' ++ buffer' = concat out ++ buffer ++ with_sep l.
Proof.
  revert out buffer. induction l as [|ids l IH]; intros out buffer; simpl.
  - intros [= <- <-]. unfold with_sep. simpl. by rewrite app_nil_r.
  - destruct (drain _ _ _ _) as [[o b]|] eqn:Hd; [|done].
    intros H. apply IH in H. apply drain_conserves in Hd.
    rewrite H, (app_assoc (concat o)), Hd. by rewrite <- !app_assoc.
Qed.

Lemma for_input_ids_exit fuel cs l out buffer out' buffer' :
  for_input_ids sep_token_id fuel cs l out buffer = Some (out', buffer') →
  (Z.of_nat (length buffer) < cs)%Z ∨ l ≠ [] →
  (Z.of_nat (length buffer') < cs)%Z.
Proof.
  revert out buffer. induction l as [|ids l IH]; intros out buffer; simpl.
  - intros [= <- <-] [?|?]; done.
  - destruct (drain _ _ _ _) as [[o b]|] eqn:Hd; [|done].
    intros H _. apply (IH _ _ H). left. eapply drain_exit, Hd.
Qed.

Lemma for_input_ids_returns fuel cs l out buffer :
  (0 < cs)%Z → length buffer + length (with_sep l) ≤ fuel →
  ∃ out' buffer', for_input_ids sep_token_id fuel cs l out buffer = Some (out', buffer').
Proof.
  intros Hcs. revert out buffer. induction l as [|ids l IH]; intros out buffer Hlen; simpl.
  - eauto.
  - unfold with_sep in Hlen. rewrite bind_cons, length_app in Hlen.
    destruct (drain_returns fuel cs out (buffer ++ ids ++ [sep_token_id]) Hcs)
      as (o & b & -> & Hb); [rewrite length_app; lia|].
    rewrite length_app in Hb. apply IH. unfold with_sep. lia.
Qed.

(** Nothing is emitted while the buffer stays below the chunk size. *)
Lemma for_input_ids_below fuel cs l out buffer :
  (Z.of_nat (length (buffer ++ with_sep l)) < cs)%Z →
  for_input_ids sep_token_id fuel cs l out buffer = Some (out, buffer ++ with_sep l).
Proof.
  revert buffer. induction l as [|ids l IH]; intros buffer; simpl.
  - unfold with_sep. simpl. by rewrite app_nil_r.
  - intros Hlen. rewrite drain_below.
    + rewrite IH; rewrite <- !app_assoc; [done|]. by rewrite <- !app_assoc in Hlen.
    + rewrite !length_app in *. simpl in *. lia.
Qed.

Lemma for_input_ids_diverges fuel cs l out buffer :
  (cs ≤ 0)%Z → l ≠ [] → for_input_ids sep_token_id fuel cs l out buffer = None.
Proof.
  intros Hcs Hl. destruct l as [|ids l]; [done|]. simpl. by rewrite drain_diverges.
Qed.

Lemma text_in_column_names (examples : gmap string (list string)) :
  "text" ∈ (map_to_list examples).*1 ↔ is_Some (examples !! "text").
Proof.
  rewrite list_elem_of_fmap. split.
  - intros ([k v] & -> & Hin). apply elem_of_map_to_list in Hin. eauto.
  - intros [v Hv]. exists ("text", v). split; [done|]. by apply elem_of_map_to_list.
Qed.

Lemma with_sep_tokenize texts :
  with_sep (tokenize <$> texts) = stream_of_texts tokenize sep_token_id texts.
Proof.
  unfold with_sep, stream_of_texts. induction texts as [|x texts IH]; [done|].
  rewrite fmap_cons, !bind_cons. by rewrite IH.
Qed.

(** What a call does, case by case. *)
Lemma call_no_text fuel examples self :
  examples !! "text" = None →
  __call__ tokenize sep_token_id fuel examples self
  = (Raise (AssertionError assert_msg), self).
Proof.
  intros H. unfold __call__. rewrite bool_decide_eq_false_2; [done|].
  rewrite text_in_column_names, H. by intros [? ?].
Qed.

Lemma call_text fuel examples self texts :
  examples !! "text" = Some texts →
  __call__ tokenize sep_token_id fuel examples self
  = match for_input_ids sep_token_id fuel (_chunk_size self)
            (tokenize <$> texts) [] (_buffer self) with
    | None => (OutOfFuel,
               Build (_chunk_size self) (_buffer self) (tokenizer_calls self ++ [texts]))
    | Some (out, buffer) =>
        (Ok {[ "input_ids" := out ]},
         Build (_chunk_size self) buffer (tokenizer_calls self ++ [texts]))
    end.
Proof.
  intros H. unfold __call__. rewrite bool_decide_eq_true_2.
  - rewrite H. simpl. by destruct (for_input_ids _ _ _ _ _ _) as [[??]|].
  - rewrite text_in_column_names, H. eauto.
Qed.

Lemma call_ok_inv fuel examples self d self' :
  __call__ tokenize sep_token_id fuel examples self = (Ok d, self') →
  ∃ texts out,
    examples !! "text" = Some texts
    ∧ for_input_ids sep_token_id fuel (_chunk_size self)
        (tokenize <$> texts) [] (_buffer self) = Some (out, _buffer self')
    ∧ d = {[ "input_ids" := out ]}
    ∧ _chunk_size self' = _chunk_size self.
Proof.
  destruct (examples !! "text") as [texts|] eqn:Ht.
  - rewrite (call_text _ _ _ texts Ht).
    destruct (for_input_ids _ _ _ _ _ _) as [[out b]|] eqn:Hf; [|done].
    intros [= <- <-]. exists texts, out. by simpl.
  - by rewrite call_no_text.
Qed.

Lemma call_conserves fuel examples self d self' :
  __call__ tokenize sep_token_id fuel examples self = (Ok d, self') →
  concat (chunks_of d) ++ _buffer self'
  = _buffer self ++ stream_of tokenize sep_token_id examples.
Proof.
  intros (texts & out & Ht & Hf & -> & _)%call_ok_inv.
  apply for_input_ids_conserves in Hf. simpl in Hf.
  unfold chunks_of, stream_of. rewrite lookup_singleton_eq, Ht. simpl.
  by rewrite Hf, with_sep_tokenize.
Qed.

Lemma calls_conserve fuel batches self ds self' :
  calls tokenize sep_token_id fuel batches self = (Ok ds, self') →
  concat (emitted ds) ++ _buffer self'
  = _buffer self ++ stream tokenize sep_token_id batches.
Proof.
  revert self ds. induction batches as [|examples rest IH]; intros self ds; simpl.
  - intros [= <- <-]. unfold emitted, stream. simpl. by rewrite app_nil_r.
  - unfold bind.
    destruct (__call__ _ _ _ _ _) as [[d| |] self1] eqn:Hc; [|done..].
    destruct (calls _ _ _ _ _) as [[ds1| |] self2] eqn:Hr; [|done..].
    intros [= <- <-]. apply IH in Hr. apply call_conserves in Hc.
    unfold emitted, stream in *. rewrite !bind_cons, concat_app, <- app_assoc, Hr.
    by rewrite !app_assoc, Hc.
Qed.

Lemma call_returns fuel examples self :
  (0 < _chunk_size self)%Z → is_Some (examples !! "text") →
  length (_buffer self) + length (stream_of tokenize sep_token_id examples) ≤ fuel →
  ∃ d self', __call__ tokenize sep_token_id fuel examples self = (Ok d, self').
Proof.
  intros Hcs [texts Ht] Hlen. rewrite (call_text _ _ _ texts Ht).
  unfold stream_of in Hlen. rewrite Ht in Hlen. simpl in Hlen.
  rewrite <- with_sep_tokenize in Hlen.
  destruct (for_input_ids_returns fuel (_chunk_size self) (tokenize <$> texts) []
              (_buffer self) Hcs Hlen) as (o & b & ->). eauto.
Qed.

Lemma call_buffer_le fuel examples self d self' :
  (0 < _chunk_size self)%Z →
  __call__ tokenize sep_token_id fuel examples self = (Ok d, self') →
  length (_buffer self')
  ≤ length (_buffer self) + length (stream_of tokenize sep_token_id examples).
Proof.
  intros Hcs Hc. apply call_conserves in Hc.
  apply (f_equal length) in Hc. rewrite !length_app in Hc. lia.
Qed.

Lemma calls_return fuel batches self :
  (0 < _chunk_size self)%Z →
  Forall (λ examples : gmap string (list string), is_Some (examples !! "text")) batches →
  length (_buffer self) + length (stream tokenize sep_token_id batches) ≤ fuel →
  ∃ ds self', calls tokenize sep_token_id fuel batches self = (Ok ds, self').
Proof.
  intros Hcs Hall. revert self Hcs. induction Hall as [|examples rest Ht _ IH]; intros self Hcs Hlen.
  - simpl. unfold ret. eauto.
  - unfold stream in Hlen. rewrite bind_cons, length_app in Hlen.
    fold (stream tokenize sep_token_id rest) in Hlen.
    destruct (call_returns fuel examples self Hcs Ht) as (d & self1 & Hc); [lia|].
    pose proof (call_buffer_le _ _ _ _ _ Hcs Hc) as Hle.
    pose proof Hc as (_ & _ & _ & _ & _ & Hcs1)%call_ok_inv.
    destruct (IH self1) as (ds & self2 & Hr); [lia|lia|].
    exists (d :: ds), self2. simpl. unfold bind. by rewrite Hc, Hr.
Qed.

End ProcessorFacts.

Section ProcessorInvariant.
Import Processor.

Variable tokenize : string → list Z.
Variable sep_token_id : Z.

(** A call that returns keeps the buffer below the chunk size, provided it
    was below before (or the call had a text to process). *)
Lemma call_keeps_below fuel examples self d self' :
  (Z.of_nat (length (_buffer self)) < _chunk_size self)%Z →
  __call__ tokenize sep_token_id fuel examples self = (Ok d, self') →
  (Z.of_nat (length (_buffer self')) < _chunk_size self')%Z
  ∧ _chunk_size self' = _chunk_size self.
Proof.
  intros Hinv (texts & out & _ & Hf & _ & Hcs)%call_ok_inv.
  split; [|done]. rewrite Hcs. eapply for_input_ids_exit; eauto.
Qed.

Lemma calls_keep_below fuel batches self ds self' :
  (Z.of_nat (length (_buffer self)) < _chunk_size self)%Z →
  calls tokenize sep_token_id fuel batches self = (Ok ds, self') →
  (Z.of_nat (length (_buffer self')) < _chunk_size self')%Z
  ∧ _chunk_size self' = _chunk_size self.
Proof.
  revert self ds. induction batches as [|examples rest IH]; intros self ds Hinv; simpl.
  - by intros [= <- <-].
  - unfold bind.
    destruct (__call__ _ _ _ _ _) as [[d| |] self1] eqn:Hc; [|done..].
    destruct (calls _ _ _ _ _) as [[ds1| |] self2] eqn:Hr; [|done..].
    intros [= <- <-]. apply (call_keeps_below _ _ _ _ _ Hinv) in Hc as [H1 E1].
    apply (IH _ _ H1) in Hr as [H2 E2]. split; [done|congruence].
Qed.

End ProcessorInvariant.

(** ** The claims about the processor *)

(** C1. Token conservation. For every run of consecutive calls on one fresh
    instance that returns, the chunks emitted across the calls, concatenated
    in emission order and followed by the final buffer, are exactly the
    texts' id sequences, each followed by the separator id, in input order.
    This holds for every [max_length]; and when [max_length > 3] and every
    batch has a [text] column, the run does return (fuel equal to the length
    of the token stream is enough). *)
Theorem C1_token_conservation
    (tokenize : string → list Z) (sep_token_id max_length : Z)
    (batches : list (gmap string (list string))) :
  (∀ fuel ds self',
     Processor.calls tokenize sep_token_id fuel batches (Processor.__init__ max_length)
     = (Ok ds, self') →
     concat (Processor.emitted ds) ++ Processor._buffer self'
     = Processor.stream tokenize sep_token_id batches)
  ∧ ((3 < max_length)%Z →
     Forall (λ examples : gmap string (list string), is_Some (examples !! "text")) batches →
     ∀ fuel, length (Processor.stream tokenize sep_token_id batches) ≤ fuel →
     ∃ ds self',
       Processor.calls tokenize sep_token_id fuel batches (Processor.__init__ max_length)
       = (Ok ds, self')).
Proof.
  split.
  - intros fuel ds self' H. by apply calls_conserve in H.
  - intros Hm Hall fuel Hfuel. apply calls_return; simpl; [lia|done|lia].
Qed.

Lemma C1_token_conservation_witness :
  let batches : list (gmap string (list string)) :=
    [ {[ "text" := ["ab"; "cde"] ]}; {[ "text" := ["g"] ]} ] in
  let ds : list (gmap string (list (list Z))) :=
    [ {[ "input_ids" := [[97; 98; 102; 99]] ]};
      {[ "input_ids" := [[100; 101; 102; 103]] ]} ]%Z in
  let self' := Processor.Build 4 [102%Z] [["ab"; "cde"]; ["g"]] in
  Processor.calls Toy.tokenize Toy.sep_token_id 9 batches (Processor.__init__ 7)
  = (Ok ds, self')
  ∧ concat (Processor.emitted ds) ++ Processor._buffer self'
    = Processor.stream Toy.tokenize Toy.sep_token_id batches.
Proof.
  intros batches ds self'.
  assert (Hrun : Processor.calls Toy.tokenize Toy.sep_token_id 9 batches
                   (Processor.__init__ 7) = (Ok ds, self')) by (vm_compute; reflexivity).
  split; [exact Hrun|].
  exact (proj1 (C1_token_conservation Toy.tokenize Toy.sep_token_id 7 batches) 9 ds self' Hrun).
Defined.

(** C4, as amended. A call on a batch with no field named [text] raises an
    [AssertionError] (the source asserts; nothing raises a [SchemaError]),
    and it does so before any tokenization and before any change of the
    buffer: the instance is left as it was. *)
Theorem C4_missing_text_asserts
    (tokenize : string → list Z) (sep_token_id : Z) (fuel : nat)
    (examples : gmap string (list string)) (self : Processor.t) :
  examples !! "text" = None →
  ∃ e self',
    Processor.__call__ tokenize sep_token_id fuel examples self = (Raise e, self')
    ∧ exn_class e = "AssertionError"
    ∧ Processor._buffer self' = Processor._buffer self
    ∧ Processor.tokenizer_calls self' = Processor.tokenizer_calls self.
Proof.
  intros H. exists (AssertionError Processor.assert_msg), self.
  by rewrite call_no_text.
Qed.

Lemma C4_missing_text_asserts_witness :
  ∃ e self',
    Processor.__call__ Toy.tokenize Toy.sep_token_id 0
      {[ "label" := ["x"] ]} (Processor.Build 10 [7%Z] []) = (Raise e, self')
    ∧ exn_class e = "AssertionError"
    ∧ Processor._buffer self' = [7%Z]
    ∧ Processor.tokenizer_calls self' = [].
Proof.
  apply (C4_missing_text_asserts Toy.tokenize Toy.sep_token_id 0
           {[ "label" := ["x"] ]} (Processor.Build 10 [7%Z] [])).
  vm_compute. reflexivity.
Defined.

(** C4 as stated fails: on a batch without [text] the exception is not a
    [SchemaError]. *)
Lemma C4_counterexample :
  ¬ raises "SchemaError"
      (Processor.__call__ Toy.tokenize Toy.sep_token_id 0
         {[ "label" := ["x"] ]} (Processor.__init__ 13)).1.
Proof.
  intros (e & He & Hc). vm_compute in He. injection He as <-. discriminate Hc.
Qed.

(** C7, as amended. Provided [max_length > 3]: after every run of
    consecutive calls on a fresh instance that returns, the buffer is
    strictly shorter than [chunk_size = max_length - 3]; and such a run
    returns whenever every batch has a [text] column. *)
Theorem C7_buffer_below_chunk_size
    (tokenize : string → list Z) (sep_token_id max_length : Z)
    (batches : list (gmap string (list string))) :
  (3 < max_length)%Z →
  (∀ fuel ds self',
     Processor.calls tokenize sep_token_id fuel batches (Processor.__init__ max_length)
     = (Ok ds, self') →
     (Z.of_nat (length (Processor._buffer self')) < Processor._chunk_size self')%Z
     ∧ Processor._chunk_size self' = (max_length - 3)%Z)
  ∧ (Forall (λ examples : gmap string (list string), is_Some (examples !! "text")) batches →
     ∃ fuel ds self',
       Processor.calls tokenize sep_token_id fuel batches (Processor.__init__ max_length)
       = (Ok ds, self')).
Proof.
  intros Hm. split.
  - intros fuel ds self' H. apply calls_keep_below in H; simpl in *; [done|lia].
  - intros Hall. exists (length (Processor.stream tokenize sep_token_id batches)).
    apply calls_return; simpl; [lia|done|lia].
Qed.

Lemma C7_buffer_below_chunk_size_witness :
  let batches : list (gmap string (list string)) :=
    [ {[ "text" := ["ab"; "cde"] ]}; {[ "text" := ["g"] ]} ] in
  (3 < 7)%Z
  ∧ ∀ fuel ds self',
      Processor.calls Toy.tokenize Toy.sep_token_id fuel batches (Processor.__init__ 7)
      = (Ok ds, self') →
      (Z.of_nat (length (Processor._buffer self')) < Processor._chunk_size self')%Z
      ∧ Processor._chunk_size self' = (7 - 3)%Z.
Proof.
  intros batches. split; [lia|].
  apply (C7_buffer_below_chunk_size Toy.tokenize Toy.sep_token_id 7 batches). lia.
Defined.

(** C7 as stated fails for [max_length = 3]: the chunk size is 0, a call on
    a batch whose [text] column is empty returns, and the empty buffer is
    not shorter than 0. *)
Lemma C7_counterexample :
  ∃ d self',
    Processor.__call__ Toy.tokenize Toy.sep_token_id 0
      {[ "text" := [] ]} (Processor.__init__ 3) = (Ok d, self')
    ∧ ¬ (Z.of_nat (length (Processor._buffer self')) < Processor._chunk_size self')%Z.
Proof.
  eexists _, _. split; [vm_compute; reflexivity|]. vm_compute. discriminate.
Qed.

(** C10. Every mapping a call returns has exactly one key, [input_ids]. When
    the buffer together with this call's ids and separators stays below the
    chunk size, the call returns [{"input_ids": []}] and the buffer holds the
    old buffer followed by those ids and separators. *)
Theorem C10_single_key_result
    (tokenize : string → list Z) (sep_token_id : Z) (fuel : nat)
    (examples : gmap string (list string)) (self : Processor.t) :
  (∀ d self',
     Processor.__call__ tokenize sep_token_id fuel examples self = (Ok d, self') →
     dom d = ({[ "input_ids" ]} : gset string))
  ∧ (∀ texts,
       examples !! "text" = Some texts →
       (Z.of_nat (length (Processor._buffer self
                          ++ Processor.stream_of_texts tokenize sep_token_id texts))
        < Processor._chunk_size self)%Z →
       ∃ self',
         Processor.__call__ tokenize sep_token_id fuel examples self
         = (Ok {[ "input_ids" := [] ]}, self')
         ∧ Processor._buffer self'
           = Processor._buffer self ++ Processor.stream_of_texts tokenize sep_token_id texts
         ∧ Processor._chunk_size self' = Processor._chunk_size self).
Proof.
  split.
  - intros d self' (texts & out & _ & _ & -> & _)%call_ok_inv. apply dom_singleton_L.
  - intros texts Ht Hlen. rewrite (call_text _ _ _ _ _ texts Ht).
    rewrite for_input_ids_below; rewrite with_sep_tokenize; [|done].
    eexists. split; [reflexivity|]. by simpl.
Qed.

Lemma C10_single_key_result_witness :
  ∃ self',
    Processor.__call__ Toy.tokenize Toy.sep_token_id 0
      {[ "text" := ["ab"] ]} (Processor.__init__ 13)
    = (Ok {[ "input_ids" := [] ]}, self')
    ∧ Processor._buffer self' = [] ++ [97; 98; 102]%Z
    ∧ Processor._chunk_size self' = 10%Z.
Proof.
  apply (proj2 (C10_single_key_result Toy.tokenize Toy.sep_token_id 0
                  {[ "text" := ["ab"] ]} (Processor.__init__ 13)) ["ab"]).
  - vm_compute. reflexivity.
  - vm_compute. reflexivity.
Defined.

(** * Properties of the collator *)

Section TensorFacts.

Lemma zip_with_app_replicate (rows : list (list Z)) (pad : list Z) :
  zip_with app rows (replicate (length rows) pad) = (λ row, row ++ pad) <$> rows.
Proof. induction rows as [|row rows IH]; simpl; [done|]. by rewrite IH. Qed.

Lemma zip_with_app_fmap (f g : list Z → list Z) (rows : list (list Z)) :
  zip_with app (f <$> rows) (g <$> rows) = (λ row, f row ++ g row) <$> rows.
Proof.
  induction rows as [|row rows IH]; [done|].
  rewrite !fmap_cons. cbn [zip_with]. by rewrite IH.
Qed.

Lemma take_drop_step (s a b : nat) (row : list Z) :
  take s (drop a row) ++ take b (drop (s + a) row) = take (s + b) (drop a row).
Proof.
  rewrite <- (take_take_drop (drop a row) s b). by rewrite drop_drop, (Nat.add_comm a s).
Qed.

Lemma cat_cons_cons (a b : Tensor.t) (l : list Tensor.t) :
  Tensor.cat (a :: b :: l)
  = match Tensor.cat (b :: l) with
    | Ok t => Tensor.cat2 a t
    | Raise e => Raise e
    | OutOfFuel => OutOfFuel
    end.
Proof. reflexivity. Qed.

(** Consecutive pieces of width [s], from piece [k] on, put side by side. *)
Lemma cat_narrow (s : nat) (rows : list (list Z)) (m k : nat) :
  Tensor.cat ((λ i, Tensor.narrow (i * s) s rows) <$> seq k (S m))
  = Ok (Tensor.Mat (S m * s) ((λ row, take (S m * s) (drop (k * s) row)) <$> rows)).
Proof.
  revert k. induction m as [|m IH]; intros k.
  - simpl. unfold Tensor.narrow. by rewrite Nat.add_0_r.
  - set (f := λ i, Tensor.narrow (i * s) s rows) in *.
    assert (E : f <$> seq k (S (S m)) = f k :: f (S k) :: (f <$> seq (S (S k)) m))
      by reflexivity.
    assert (E2 : f <$> seq (S k) (S m) = f (S k) :: (f <$> seq (S (S k)) m))
      by reflexivity.
    rewrite E, cat_cons_cons, <- E2, IH. unfold f, Tensor.narrow, Tensor.cat2.
    rewrite bool_decide_eq_true_2 by (by rewrite !length_fmap).
    rewrite zip_with_app_fmap. f_equal. f_equal.
    apply list_fmap_ext. intros _ row _.
    change (S k * s) with (s + k * s). change (S (S m) * s) with (s + S m * s).
    apply take_drop_step.
Qed.

Lemma cat_narrow_all (s ws : nat) (rows : list (list Z)) :
  0 < ws → Forall (λ row, length row = ws * s) rows →
  Tensor.cat ((λ i, Tensor.narrow (i * s) s rows) <$> seq 0 ws)
  = Ok (Tensor.Mat (ws * s) rows).
Proof.
  intros Hws Hwf. destruct ws as [|m]; [lia|]. rewrite cat_narrow. do 2 f_equal.
  rewrite <- (list_fmap_id rows) at 2. apply Forall_fmap_ext.
  eapply Forall_impl; [exact Hwf|]. intros row Hrow. simpl. rewrite drop_0.
  apply take_ge. simpl in Hrow. lia.
Qed.

Lemma replicate_narrow_empty (rows : list (list Z)) (n k : nat) :
  replicate n (Tensor.narrow 0 0 rows)
  = (λ i, Tensor.narrow (i * 0) 0 rows) <$> seq k n.
Proof.
  revert k. induction n as [|n IH]; intros k; [done|].
  cbn [replicate seq]. rewrite fmap_cons, Nat.mul_0_r. f_equal. apply IH.
Qed.

(** Splitting a sequence of [ws * s] columns into [ws] pieces gives [ws]
    pieces of [s] columns each. *)
Lemma chunk_multiple (ws : Z) (s : nat) (rows : list (list Z)) :
  (0 < ws)%Z →
  Tensor.chunk ws (Tensor.Mat (Z.to_nat ws * s) rows)
  = Ok ((λ i, Tensor.narrow (i * s) s rows) <$> seq 0 (Z.to_nat ws)).
Proof.
  intros Hws. unfold Tensor.chunk.
  destruct (Z.leb_spec ws 0); [lia|].
  assert (Hsplit : ((Z.of_nat (Z.to_nat ws * s) + ws - 1) / ws = Z.of_nat s)%Z).
  { replace (Z.of_nat (Z.to_nat ws * s) + ws - 1)%Z with (Z.of_nat s * ws + (ws - 1))%Z by lia.
    rewrite Z.div_add_l by lia. rewrite Z.div_small by lia. lia. }
  rewrite Hsplit. destruct (Z.eqb_spec (Z.of_nat s) 0) as [Hs|Hs].
  - assert (s = 0) as -> by lia. f_equal.
    apply replicate_narrow_empty.
  - assert (Hnum : ((Z.of_nat (Z.to_nat ws * s) + Z.of_nat s - 1) / Z.of_nat s = ws)%Z).
    { replace (Z.of_nat (Z.to_nat ws * s) + Z.of_nat s - 1)%Z
        with (ws * Z.of_nat s + (Z.of_nat s - 1))%Z by lia.
      rewrite Z.div_add_l by lia. rewrite Z.div_small by lia. lia. }
    rewrite Hnum, Z.max_l by lia. f_equal.
    apply list_fmap_ext. intros _ i _. f_equal; [lia|].
    destruct (Z.ltb_spec (Z.of_nat i) (ws - 1)); lia.
Qed.

Lemma py_index_nonneg {A} (l : list A) (i : Z) :
  (0 ≤ i)%Z →
  py_index l i = match l !! Z.to_nat i with
                 | Some x => Ok x
                 | None => Raise (IndexError "tuple index out of range")
                 end.
Proof.
  intros Hi. unfold py_index.
  assert (E : (i <? 0)%Z = false) by (apply Z.ltb_ge; lia).
  rewrite E. cbv beta iota zeta. by rewrite E.
Qed.

Lemma py_index_negative {A} (l : list A) (i : Z) :
  (i < 0)%Z → (0 ≤ i + Z.of_nat (length l))%Z →
  py_index l i = py_index l (i + Z.of_nat (length l)).
Proof.
  intros Hi Hl. rewrite (py_index_nonneg l (i + _)) by done. unfold py_index.
  assert (E : (i <? 0)%Z = true) by (apply Z.ltb_lt; lia).
  assert (E' : (i + Z.of_nat (length l) <? 0)%Z = false) by (apply Z.ltb_ge; lia).
  rewrite E. cbv beta iota zeta. by rewrite E'.
Qed.

Lemma py_index_fmap_seq {A} (f : nat → A) (n : nat) (i : Z) :
  (0 ≤ i < Z.of_nat n)%Z → py_index (f <$> seq 0 n) i = Ok (f (Z.to_nat i)).
Proof.
  intros Hi. rewrite py_index_nonneg by lia.
  rewrite list_lookup_fmap, lookup_seq_lt by lia. done.
Qed.

Lemma py_index_out_of_range {A} (l : list A) (i : Z) :
  (i < - Z.of_nat (length l) ∨ Z.of_nat (length l) ≤ i)%Z →
  py_index l i = Raise (IndexError "tuple index out of range").
Proof.
  intros Hi. destruct (Z.ltb_spec i 0) as [Hneg|Hpos].
  - unfold py_index.
    assert (E : (i <? 0)%Z = true) by (apply Z.ltb_lt; lia).
    assert (E' : (i + Z.of_nat (length l) <? 0)%Z = true) by (apply Z.ltb_lt; lia).
    rewrite E. cbv beta iota zeta. by rewrite E'.
  - rewrite py_index_nonneg by done. rewrite lookup_ge_None_2; [done|lia].
Qed.

End TensorFacts.

Section ShardFacts.
Import Collator.

Lemma fill_chain (pad : Z) (key : string) (batch_size : nat) (difference : Z) :
  (if String.eqb key "labels" then Tensor.full batch_size difference (-100)
   else if String.eqb key "token_type_ids" then Tensor.full batch_size difference 1
   else if String.eqb key "attention_mask" then Tensor.full batch_size difference 0
   else Tensor.full batch_size difference pad)
  = Tensor.full batch_size difference (spec_fill_value pad key).
Proof.
  unfold spec_fill_value.
  destruct (String.eqb_spec key "labels"); [by rewrite decide_True|].
  rewrite decide_False by done.
  destruct (String.eqb_spec key "token_type_ids"); [by rewrite decide_True|].
  rewrite decide_False by done.
  destruct (String.eqb_spec key "attention_mask"); [by rewrite decide_True|].
  by rewrite decide_False.
Qed.

Lemma difference_pos (n ws : Z) :
  (0 < ws)%Z → (n mod ws ≠ 0)%Z → (0 < (n / ws + 1) * ws - n < ws)%Z.
Proof.
  intros Hws Hm. pose proof (Z.mod_pos_bound n ws Hws).
  pose proof (Z.div_mod n ws ltac:(lia)). nia.
Qed.

Lemma difference_neg (n ws : Z) :
  (ws < 0)%Z → (n mod ws ≠ 0)%Z → ((n / ws + 1) * ws - n < 0)%Z.
Proof.
  intros Hws Hm. pose proof (Z.mod_neg_bound n ws Hws).
  pose proof (Z.div_mod n ws ltac:(lia)). nia.
Qed.

(** The padding step for a positive world size. *)
Lemma pad_for_split_pos (pad ws : Z) (key : string) (n : nat) (rows : list (list Z)) :
  (0 < ws)%Z →
  pad_for_split pad ws key (Tensor.Mat n rows)
  = if (Z.of_nat n mod ws =? 0)%Z then Ok (Tensor.Mat n rows)
    else
      let difference := Z.to_nat ((Z.of_nat n / ws + 1) * ws - Z.of_nat n) in
      Ok (Tensor.Mat (n + difference)
            ((λ row, row ++ replicate difference (spec_fill_value pad key)) <$> rows)).
Proof.
  intros Hws. unfold pad_for_split.
  destruct (Z.eqb_spec ws 0); [lia|].
  destruct (Z.eqb_spec (Z.of_nat n mod ws) 0) as [|Hm]; [done|]. cbn [negb].
  rewrite fill_chain. unfold Tensor.full.
  pose proof (difference_pos (Z.of_nat n) ws Hws Hm) as Hd.
  destruct (Z.ltb_spec ((Z.of_nat n / ws + 1) * ws - Z.of_nat n) 0); [lia|].
  unfold Tensor.cat2. rewrite bool_decide_eq_true_2 by (by rewrite length_replicate).
  by rewrite zip_with_app_replicate.
Qed.

(** After padding for a positive world size the sequence length is a
    multiple of it, and the rows are kept in number. *)
Lemma pad_for_split_shape (pad ws : Z) (key : string) (n : nat) (rows : list (list Z)) :
  (0 < ws)%Z →
  ∃ s rows',
    pad_for_split pad ws key (Tensor.Mat n rows) = Ok (Tensor.Mat (Z.to_nat ws * s) rows')
    ∧ length rows' = length rows.
Proof.
  intros Hws. rewrite pad_for_split_pos by done.
  destruct (Z.eqb_spec (Z.of_nat n mod ws) 0) as [Hm|Hm].
  - exists (Z.to_nat (Z.of_nat n / ws)), rows. split; [|done]. do 2 f_equal.
    pose proof (Z.div_mod (Z.of_nat n) ws ltac:(lia)).
    pose proof (Z.div_pos (Z.of_nat n) ws ltac:(lia) Hws). nia.
  - cbv zeta. eexists (Z.to_nat (Z.of_nat n / ws + 1)), _. split.
    + do 2 f_equal. pose proof (difference_pos (Z.of_nat n) ws Hws Hm).
      pose proof (Z.div_pos (Z.of_nat n) ws ltac:(lia) Hws). nia.
    + by rewrite length_fmap.
Qed.

(** The piece a rank keeps, for a valid configuration. *)
Lemma shard_of_padded (pad ws rank : Z) (key : string) (value : Tensor.t)
    (s : nat) (rows' : list (list Z)) :
  pad_for_split pad ws key value = Ok (Tensor.Mat (Z.to_nat ws * s) rows') →
  (0 ≤ rank < ws)%Z →
  shard pad ws rank key value = Ok (Tensor.narrow (Z.to_nat rank * s) s rows').
Proof.
  intros Hp Hr. unfold shard. rewrite Hp, chunk_multiple by lia.
  rewrite py_index_fmap_seq by lia. done.
Qed.

Lemma shard_world_size_zero (pad rank : Z) (key : string) (n : nat) (rows : list (list Z)) :
  shard pad 0 rank key (Tensor.Mat n rows) = Raise ZeroDivisionError.
Proof. reflexivity. Qed.

Lemma shard_world_size_negative (pad ws rank : Z) (key : string) (n : nat)
    (rows : list (list Z)) :
  (ws < 0)%Z → raises "RuntimeError" (shard pad ws rank key (Tensor.Mat n rows)).
Proof.
  intros Hws. unfold shard, pad_for_split.
  destruct (Z.eqb_spec ws 0); [lia|].
  destruct (Z.eqb_spec (Z.of_nat n mod ws) 0) as [Hm|Hm]; cbn [negb].
  - unfold Tensor.chunk. destruct (Z.leb_spec ws 0); [|lia]. by eexists.
  - rewrite fill_chain. unfold Tensor.full.
    pose proof (difference_neg (Z.of_nat n) ws Hws Hm).
    destruct (Z.ltb_spec ((Z.of_nat n / ws + 1) * ws - Z.of_nat n) 0); [|lia]. by eexists.
Qed.

Lemma shard_rank_out_of_range (pad ws rank : Z) (key : string) (n : nat)
    (rows : list (list Z)) :
  (0 < ws)%Z → (rank < - ws ∨ ws ≤ rank)%Z →
  raises "IndexError" (shard pad ws rank key (Tensor.Mat n rows)).
Proof.
  intros Hws Hr. destruct (pad_for_split_shape pad ws key n rows Hws) as (s & rows' & Hp & _).
  unfold shard. rewrite Hp, chunk_multiple by done.
  rewrite py_index_out_of_range; [by eexists|].
  rewrite length_fmap, length_seq. lia.
Qed.

Lemma shard_rank_negative (pad ws rank : Z) (key : string) (n : nat)
    (rows : list (list Z)) :
  (0 < ws)%Z → (- ws ≤ rank < 0)%Z →
  shard pad ws rank key (Tensor.Mat n rows)
  = shard pad ws (rank + ws) key (Tensor.Mat n rows).
Proof.
  intros Hws Hr. destruct (pad_for_split_shape pad ws key n rows Hws) as (s & rows' & Hp & _).
  unfold shard. rewrite Hp, chunk_multiple by done.
  rewrite py_index_negative.
  - rewrite length_fmap, length_seq. f_equal. lia.
  - lia.
  - rewrite length_fmap, length_seq. lia.
Qed.

End ShardFacts.

Section DictFacts.
Context {V : Type}.
Implicit Types d : list (string * V).

Lemma dict_get_set_eq (key : string) (v : V) d :
  Dict.get key (Dict.set key v d) = Some v.
Proof.
  induction d as [|[k v'] d IH]; simpl.
  - by rewrite String.eqb_refl.
  - destruct (String.eqb_spec k key) as [->|Hne]; simpl.
    + by rewrite String.eqb_refl.
    + by destruct (String.eqb_spec k key).
Qed.

Lemma dict_get_set_ne (key key' : string) (v : V) d :
  key ≠ key' → Dict.get key' (Dict.set key v d) = Dict.get key' d.
Proof.
  intros Hne. induction d as [|[k v'] d IH]; simpl.
  - by destruct (String.eqb_spec key key').
  - destruct (String.eqb_spec k key) as [->|Hk]; simpl.
    + by destruct (String.eqb_spec key key').
    + by destruct (String.eqb_spec k key').
Qed.

Lemma dict_get_elem_of (key : string) (v : V) d :
  NoDup d.*1 → (key, v) ∈ d → Dict.get key d = Some v.
Proof.
  induction d as [|[k v'] d IH]; simpl; intros Hnd Hin.
  - by apply elem_of_nil in Hin.
  - apply NoDup_cons in Hnd as [Hk Hnd]. apply elem_of_cons in Hin as [[= <- <-]|Hin].
    + by rewrite String.eqb_refl.
    + destruct (String.eqb_spec k key) as [->|_]; [|by apply IH].
      exfalso. apply Hk. apply list_elem_of_fmap. by exists (key, v).
Qed.

End DictFacts.

Section ShardItemsFacts.
Import Collator.

(** The loop over the fields: every field of two dimensions is replaced by
    the piece of this rank, every other field is left as it is. *)
Lemma shard_items_lookup (pad ws rank : Z) (items acc acc' : list (string * Tensor.t)) :
  NoDup items.*1 →
  shard_items pad ws rank items acc = Ok acc' →
  (∀ key value, (key, value) ∈ items →
     match value with
     | Tensor.Low _ => Dict.get key acc' = Dict.get key acc
     | Tensor.Mat _ _ =>
         ∃ piece, shard pad ws rank key value = Ok piece ∧ Dict.get key acc' = Some piece
     end)
  ∧ (∀ key, key ∉ items.*1 → Dict.get key acc' = Dict.get key acc).
Proof.
  revert acc. induction items as [|[k v] items IH]; intros acc Hnd Hrun.
  - simpl in Hrun. injection Hrun as <-. split; [|done].
    intros key value Hin. by apply elem_of_nil in Hin.
  - rewrite fmap_cons in Hnd. apply NoDup_cons in Hnd as [Hk Hnd]. simpl in Hk.
    assert (Hother : ∀ key value, (key, value) ∈ items → k ≠ key).
    { intros key value Hin ->. apply Hk, list_elem_of_fmap. by exists (key, value). }
    cbn [shard_items] in Hrun. destruct v as [data|n rows]; simpl in Hrun.
    + destruct (IH acc Hnd Hrun) as [IH1 IH2]. split.
      * intros key value [[= -> ->]|Hin]%elem_of_cons; [by apply IH2|by apply IH1].
      * intros key Hkey. rewrite fmap_cons in Hkey. apply not_elem_of_cons in Hkey as [_ ?].
        by apply IH2.
    + destruct (shard pad ws rank k (Tensor.Mat n rows)) as [piece| |] eqn:Hs; [|done..].
      destruct (IH _ Hnd Hrun) as [IH1 IH2]. split.
      * intros key value [[= -> ->]|Hin]%elem_of_cons.
        -- exists piece. split; [done|]. by rewrite IH2, dict_get_set_eq.
        -- specialize (IH1 key value Hin). destruct value; [|done].
           rewrite IH1. apply dict_get_set_ne. by eapply Hother.
      * intros key Hkey. rewrite fmap_cons in Hkey.
        apply not_elem_of_cons in Hkey as [Hne ?]. simpl in Hne.
        rewrite IH2 by done. by apply dict_get_set_ne.
Qed.

Lemma shard_items_batch (pad ws rank : Z) (batch batch' : list (string * Tensor.t)) :
  NoDup batch.*1 →
  shard_items pad ws rank batch batch = Ok batch' →
  ∀ key value, (key, value) ∈ batch →
    match value with
    | Tensor.Low _ => Dict.get key batch' = Some value
    | Tensor.Mat _ _ =>
        ∃ piece, shard pad ws rank key value = Ok piece ∧ Dict.get key batch' = Some piece
    end.
Proof.
  intros Hnd Hrun key value Hin.
  destruct (shard_items_lookup _ _ _ _ _ _ Hnd Hrun) as [H1 _].
  specialize (H1 key value Hin). destruct value; [|done].
  rewrite H1. by apply dict_get_elem_of.
Qed.

(** Padding keeps the rows well formed. *)
Lemma pad_for_split_wf (pad ws : Z) (key : string) (n : nat) (rows : list (list Z))
    (m : nat) (rows' : list (list Z)) :
  (0 < ws)%Z → Forall (λ row, length row = n) rows →
  pad_for_split pad ws key (Tensor.Mat n rows) = Ok (Tensor.Mat m rows') →
  Forall (λ row, length row = m) rows'.
Proof.
  intros Hws Hwf. rewrite pad_for_split_pos by done.
  destruct (Z.eqb_spec (Z.of_nat n mod ws) 0); cbv zeta; intros [= <- <-]; [done|].
  apply Forall_fmap. eapply Forall_impl; [exact Hwf|].
  intros row Hrow. simpl in *. by rewrite length_app, length_replicate, Hrow.
Qed.

(** The round trip for any valid configuration: the pieces of the ranks
    0 .. world_size - 1, side by side in rank order, are the padded field. *)
Lemma shard_round_trip (pad ws : Z) (key : string) (n : nat) (rows : list (list Z)) :
  (0 < ws)%Z → Forall (λ row, length row = n) rows →
  ∃ padded pieces,
    pad_for_split pad ws key (Tensor.Mat n rows) = Ok padded
    ∧ Forall2 (λ r piece, shard pad ws (Z.of_nat r) key (Tensor.Mat n rows) = Ok piece)
        (seq 0 (Z.to_nat ws)) pieces
    ∧ Tensor.cat pieces = Ok padded.
Proof.
  intros Hws Hwf.
  destruct (pad_for_split_shape pad ws key n rows Hws) as (s & rows' & Hp & _).
  pose proof (pad_for_split_wf _ _ _ _ _ _ _ Hws Hwf Hp) as Hwf'.
  exists (Tensor.Mat (Z.to_nat ws * s) rows'),
    ((λ i, Tensor.narrow (i * s) s rows') <$> seq 0 (Z.to_nat ws)).
  split; [done|]. split.
  - apply Forall2_fmap_r, Forall_Forall2_diag, Forall_forall.
    intros r Hr%elem_of_seq.
    rewrite (shard_of_padded _ _ _ _ _ _ _ Hp) by lia. by rewrite Nat2Z.id.
  - apply cat_narrow_all; [lia|done].
Qed.

End ShardItemsFacts.

(** ** The claims about Stage C and the construction *)

(** C2. With a sharding configuration present, for a two-dimensional field
    whose sequence length is not divisible by the world size, the positions
    appended before the split hold -100 for [labels], 1 for
    [token_type_ids], 0 for [attention_mask] and the tokenizer's pad id for
    every other field. The appended positions are [difference] columns on
    the right of every row; they exist for a positive world size (for a
    world size of zero or less the padding step raises and appends
    nothing). *)
Theorem C2_padding_fill_values
    (pad_token_id world_size : Z) (key : string) (n : nat) (rows : list (list Z)) :
  (Z.of_nat n mod world_size ≠ 0)%Z →
  let difference := ((Z.of_nat n / world_size + 1) * world_size - Z.of_nat n)%Z in
  let fill :=
    if decide (key = "labels") then (-100)%Z
    else if decide (key = "token_type_ids") then 1%Z
    else if decide (key = "attention_mask") then 0%Z
    else pad_token_id in
  ((0 < world_size)%Z →
   (0 < difference)%Z
   ∧ (Z.of_nat n + difference)%Z = spec_required_length (Z.of_nat n) world_size
   ∧ Collator.pad_for_split pad_token_id world_size key (Tensor.Mat n rows)
     = Ok (Tensor.Mat (n + Z.to_nat difference)
             ((λ row, row ++ replicate (Z.to_nat difference) fill) <$> rows)))
  ∧ ((world_size ≤ 0)%Z →
     ∃ e, Collator.pad_for_split pad_token_id world_size key (Tensor.Mat n rows) = Raise e).
Proof.
  intros Hm difference fill. split.
  - intros Hws. pose proof (difference_pos _ _ Hws Hm) as Hd. split; [lia|]. split.
    + unfold spec_required_length, difference.
      replace (Z.of_nat n + world_size - 1)%Z
        with ((Z.of_nat n / world_size + 1) * world_size + (Z.of_nat n mod world_size - 1))%Z.
      * rewrite Z.div_add_l by lia.
        pose proof (Z.mod_pos_bound (Z.of_nat n) world_size Hws).
        rewrite (Z.div_small (_ - 1)) by lia. lia.
      * pose proof (Z.div_mod (Z.of_nat n) world_size ltac:(lia)). lia.
    + rewrite pad_for_split_pos by done.
      destruct (Z.eqb_spec (Z.of_nat n mod world_size) 0); done.
  - intros Hws. unfold Collator.pad_for_split.
    destruct (Z.eqb_spec world_size 0); [by eexists|].
    destruct (Z.eqb_spec (Z.of_nat n mod world_size) 0); [done|]. cbn [negb].
    rewrite fill_chain. unfold Tensor.full.
    pose proof (difference_neg (Z.of_nat n) world_size ltac:(lia) Hm).
    destruct (Z.ltb_spec ((Z.of_nat n / world_size + 1) * world_size - Z.of_nat n) 0); [|lia].
    by eexists.
Qed.

Lemma C2_padding_fill_values_witness :
  (10 mod 4 ≠ 0)%Z
  ∧ Collator.pad_for_split 0 4 "labels"
      (Tensor.Mat 10 [[1;2;3;4;5;6;7;8;9;10]; [11;12;13;14;15;16;17;18;19;20]]%Z)
    = Ok (Tensor.Mat 12 [[1;2;3;4;5;6;7;8;9;10;-100;-100];
                         [11;12;13;14;15;16;17;18;19;20;-100;-100]]%Z)
  ∧ Collator.pad_for_split 0 4 "token_type_ids" (Tensor.Mat 10 [[0;0;0;0;0;0;1;1;1;1]]%Z)
    = Ok (Tensor.Mat 12 [[0;0;0;0;0;0;1;1;1;1;1;1]]%Z)
  ∧ Collator.pad_for_split 7 4 "attention_mask" (Tensor.Mat 10 [[1;1;1;1;1;1;1;1;1;1]]%Z)
    = Ok (Tensor.Mat 12 [[1;1;1;1;1;1;1;1;1;1;0;0]]%Z)
  ∧ Collator.pad_for_split 7 4 "input_ids" (Tensor.Mat 10 [[1;2;3;4;5;6;7;8;9;10]]%Z)
    = Ok (Tensor.Mat 12 [[1;2;3;4;5;6;7;8;9;10;7;7]]%Z).
Proof.
  assert (H : (Z.of_nat 10 mod 4 ≠ 0)%Z) by (vm_compute; discriminate).
  split; [vm_compute; discriminate|].
  split; [|split; [|split]].
  - exact (proj2 (proj2 (proj1 (C2_padding_fill_values 0 4 "labels" 10 _ H) eq_refl))).
  - exact (proj2 (proj2 (proj1 (C2_padding_fill_values 0 4 "token_type_ids" 10 _ H) eq_refl))).
  - exact (proj2 (proj2 (proj1 (C2_padding_fill_values 7 4 "attention_mask" 10 _ H) eq_refl))).
  - exact (proj2 (proj2 (proj1 (C2_padding_fill_values 7 4 "input_ids" 10 _ H) eq_refl))).
Defined.

Lemma narrow_rows_length (k : nat) (rows : list (list Z)) :
  k + 3 ≤ 12 → Forall (λ row, length row = 12) rows →
  Forall (λ row, length row = 3) ((λ row, take 3 (drop k row)) <$> rows).
Proof.
  intros Hk Hwf. apply Forall_fmap. eapply Forall_impl; [exact Hwf|].
  intros row Hrow. simpl in *. rewrite length_take, length_drop, Hrow. lia.
Qed.

(** C3. Sharding round trip for a world size of 4: a two-dimensional field
    of sequence length 10 is padded on the right to length 12 before the
    split; each of the ranks 0, 1, 2, 3 keeps a piece of sequence length 3;
    and the four pieces, concatenated along the sequence dimension in rank
    order, are the padded tensor (which is not the original one). *)
Theorem C3_shard_round_trip
    (pad_token_id : Z) (key : string) (rows : list (list Z)) :
  Forall (λ row, length row = 10) rows →
  ∃ rows12 r0 r1 r2 r3,
    Collator.pad_for_split pad_token_id 4 key (Tensor.Mat 10 rows)
    = Ok (Tensor.Mat 12 rows12)
    ∧ rows12 = (λ row, row ++ replicate 2 (spec_fill_value pad_token_id key)) <$> rows
    ∧ Forall (λ row, length row = 12) rows12
    ∧ Collator.shard pad_token_id 4 0 key (Tensor.Mat 10 rows) = Ok (Tensor.Mat 3 r0)
    ∧ Collator.shard pad_token_id 4 1 key (Tensor.Mat 10 rows) = Ok (Tensor.Mat 3 r1)
    ∧ Collator.shard pad_token_id 4 2 key (Tensor.Mat 10 rows) = Ok (Tensor.Mat 3 r2)
    ∧ Collator.shard pad_token_id 4 3 key (Tensor.Mat 10 rows) = Ok (Tensor.Mat 3 r3)
    ∧ Forall (λ row, length row = 3) r0
    ∧ Forall (λ row, length row = 3) r1
    ∧ Forall (λ row, length row = 3) r2
    ∧ Forall (λ row, length row = 3) r3
    ∧ Tensor.cat [Tensor.Mat 3 r0; Tensor.Mat 3 r1; Tensor.Mat 3 r2; Tensor.Mat 3 r3]
      = Ok (Tensor.Mat 12 rows12)
    ∧ Tensor.Mat 12 rows12 ≠ Tensor.Mat 10 rows.
Proof.
  intros Hwf.
  set (rows12 := (λ row, row ++ replicate 2 (spec_fill_value pad_token_id key)) <$> rows).
  assert (Hp : Collator.pad_for_split pad_token_id 4 key (Tensor.Mat 10 rows)
               = Ok (Tensor.Mat (Z.to_nat 4 * 3) rows12))
    by (by rewrite pad_for_split_pos).
  assert (Hwf12 : Forall (λ row, length row = 12) rows12).
  { apply Forall_fmap. eapply Forall_impl; [exact Hwf|].
    intros row Hrow. simpl in *. rewrite length_app, Hrow. done. }
  exists rows12,
    ((λ row, take 3 (drop 0 row)) <$> rows12), ((λ row, take 3 (drop 3 row)) <$> rows12),
    ((λ row, take 3 (drop 6 row)) <$> rows12), ((λ row, take 3 (drop 9 row)) <$> rows12).
  split; [exact Hp|]. split; [done|]. split; [done|].
  split; [exact (shard_of_padded _ 4 0 _ _ 3 _ Hp ltac:(lia))|].
  split; [exact (shard_of_padded _ 4 1 _ _ 3 _ Hp ltac:(lia))|].
  split; [exact (shard_of_padded _ 4 2 _ _ 3 _ Hp ltac:(lia))|].
  split; [exact (shard_of_padded _ 4 3 _ _ 3 _ Hp ltac:(lia))|].
  split; [apply narrow_rows_length; [lia|done]|].
  split; [apply narrow_rows_length; [lia|done]|].
  split; [apply narrow_rows_length; [lia|done]|].
  split; [apply narrow_rows_length; [lia|done]|].
  split; [exact (cat_narrow_all 3 4 rows12 ltac:(lia) Hwf12)|].
  intros [= ?].
Qed.

Lemma C3_shard_round_trip_witness :
  let rows := [[1;2;3;4;5;6;7;8;9;10]; [11;12;13;14;15;16;17;18;19;20]]%Z in
  Forall (λ row, length row = 10) rows
  ∧ ∃ rows12 r0 r1 r2 r3,
      Collator.pad_for_split 0 4 "input_ids" (Tensor.Mat 10 rows)
      = Ok (Tensor.Mat 12 rows12)
      ∧ rows12 = (λ row, row ++ replicate 2 (spec_fill_value 0 "input_ids")) <$> rows
      ∧ Forall (λ row, length row = 12) rows12
      ∧ Collator.shard 0 4 0 "input_ids" (Tensor.Mat 10 rows) = Ok (Tensor.Mat 3 r0)
      ∧ Collator.shard 0 4 1 "input_ids" (Tensor.Mat 10 rows) = Ok (Tensor.Mat 3 r1)
      ∧ Collator.shard 0 4 2 "input_ids" (Tensor.Mat 10 rows) = Ok (Tensor.Mat 3 r2)
      ∧ Collator.shard 0 4 3 "input_ids" (Tensor.Mat 10 rows) = Ok (Tensor.Mat 3 r3)
      ∧ Forall (λ row, length row = 3) r0
      ∧ Forall (λ row, length row = 3) r1
      ∧ Forall (λ row, length row = 3) r2
      ∧ Forall (λ row, length row = 3) r3
      ∧ Tensor.cat [Tensor.Mat 3 r0; Tensor.Mat 3 r1; Tensor.Mat 3 r2; Tensor.Mat 3 r3]
        = Ok (Tensor.Mat 12 rows12)
      ∧ Tensor.Mat 12 rows12 ≠ Tensor.Mat 10 rows.
Proof.
  intros rows.
  assert (Hwf : Forall (λ row, length row = 10) rows)
    by (repeat constructor).
  split; [exact Hwf|].
  exact (C3_shard_round_trip 0 "input_ids" rows Hwf).
Defined.

(** C5, as amended. Constructing the collator never raises: the local rank
    and the world size of the parallel context are stored unchecked. An
    invalid configuration shows at call time only, when a two-dimensional
    field is sharded: a world size of 0 raises [ZeroDivisionError], a
    negative world size raises [RuntimeError], and with a positive world
    size a local rank of [world_size] or more, or below [-world_size],
    raises [IndexError]; a local rank in [-world_size, 0) raises nothing and
    selects the piece counted from the end. A rank in [0, world_size) with a
    positive world size always yields a piece. *)
Theorem C5_configuration_unchecked
    (tokenizer_pad_token_id : Z) (pad_to_multiple_of : option Z)
    (parallel_context : option Collator.ParallelContext) :
  (∃ self,
     Collator.__init__ tokenizer_pad_token_id pad_to_multiple_of parallel_context = Ok self
     ∧ Collator.parallel_context self = parallel_context
     ∧ Collator.local_rank self = Collator.get_local_rank <$> parallel_context
     ∧ Collator.local_world_size self = Collator.get_world_size <$> parallel_context)
  ∧ ∀ (world_size rank : Z) (key : string) (n : nat) (rows : list (list Z)),
      let result r :=
        Collator.shard tokenizer_pad_token_id world_size r key (Tensor.Mat n rows) in
      (world_size = 0%Z → raises "ZeroDivisionError" (result rank))
      ∧ ((world_size < 0)%Z → raises "RuntimeError" (result rank))
      ∧ ((0 < world_size)%Z → (rank < - world_size ∨ world_size ≤ rank)%Z →
         raises "IndexError" (result rank))
      ∧ ((0 < world_size)%Z → (- world_size ≤ rank < 0)%Z →
         result rank = result (rank + world_size)%Z)
      ∧ ((0 < world_size)%Z → (0 ≤ rank < world_size)%Z → ∃ piece, result rank = Ok piece).
Proof.
  split; [by eexists|].
  intros ws rank key n rows result. unfold result. repeat apply conj.
  - intros ->. rewrite shard_world_size_zero. by eexists.
  - apply shard_world_size_negative.
  - apply shard_rank_out_of_range.
  - apply shard_rank_negative.
  - intros Hws Hr.
    destruct (pad_for_split_shape tokenizer_pad_token_id ws key n rows Hws)
      as (s & rows' & Hp & _).
    rewrite (shard_of_padded _ _ _ _ _ _ _ Hp Hr). by eexists.
Qed.

Lemma C5_configuration_unchecked_witness :
  let value := Tensor.Mat 4 [[1;2;3;4]]%Z in
  raises "ZeroDivisionError" (Collator.shard 0 0 0 "input_ids" value)
  ∧ raises "RuntimeError" (Collator.shard 0 (-2) 0 "input_ids" value)
  ∧ raises "IndexError" (Collator.shard 0 2 2 "input_ids" value)
  ∧ Collator.shard 0 2 (-1) "input_ids" value = Collator.shard 0 2 (-1 + 2) "input_ids" value
  ∧ ∃ piece, Collator.shard 0 2 1 "input_ids" value = Ok piece.
Proof.
  pose proof (proj2 (C5_configuration_unchecked 0 None None)) as H.
  split; [exact (proj1 (H 0%Z 0%Z "input_ids" 4 [[1;2;3;4]]%Z) eq_refl)|].
  split; [exact (proj1 (proj2 (H (-2)%Z 0%Z "input_ids" 4 [[1;2;3;4]]%Z)) eq_refl)|].
  split; [exact (proj1 (proj2 (proj2 (H 2%Z 2%Z "input_ids" 4 [[1;2;3;4]]%Z)))
                   eq_refl ltac:(lia))|].
  split; [exact (proj1 (proj2 (proj2 (proj2 (H 2%Z (-1)%Z "input_ids" 4 [[1;2;3;4]]%Z))))
                   eq_refl ltac:(lia))|].
  exact (proj2 (proj2 (proj2 (proj2 (H 2%Z 1%Z "input_ids" 4 [[1;2;3;4]]%Z))))
           eq_refl ltac:(lia)).
Defined.

(** C5 as stated fails: with a world size of 0 the construction returns a
    collator and raises nothing; the error comes at call time, as a
    [ZeroDivisionError]. *)
Lemma C5_counterexample :
  let pc := {| Collator.get_local_rank := 0; Collator.get_world_size := 0 |} in
  ¬ raises "ConfigError" (Collator.__init__ 0 None (Some pc))
  ∧ ∃ self g',
      Collator.__init__ 0 None (Some pc) = Ok self
      ∧ Toy.collate self [ {[ "input_ids" := [1;2;3;4;5;6]%Z ]} ] 0
        = (Raise ZeroDivisionError, g').
Proof.
  intros pc. split.
  - intros (e & He & _). discriminate He.
  - eexists _, _. split; [reflexivity|]. vm_compute. reflexivity.
Qed.

(** ** Stage A *)

Lemma Toy_randbelow_range (n : Z) (g : Toy.rng) :
  (0 < n)%Z → (0 ≤ (Toy.randbelow n g).1 < n)%Z.
Proof. intros Hn. simpl. by apply Z.mod_pos_bound. Qed.

Section StageA.
Import Collator.

Variable rng : Type.
Variable randbelow : Z → rng → Z * rng.
Variable random_lt_half : rng → bool * rng.
Variable build_inputs_with_special_tokens : list Z → list Z → list Z.
Variable create_token_type_ids_from_sequences : list Z → list Z → list Z.
Variable convert_ids_to_tokens : list Z → list string.
Variable _whole_word_mask : list string → M rng (list Z).
Variable tokenizer_pad : list Example → option Z → M rng (list (string * Tensor.t)).
Variable torch_mask_tokens : Tensor.t → Tensor.t → M rng (Tensor.t * Tensor.t).

(** What [Random._randbelow(n)] promises: a value in [0, n). *)
Hypothesis randbelow_range :
  ∀ (n : Z) (g : rng), (0 < n)%Z → (0 ≤ (randbelow n g).1 < n)%Z.

Notation prepare_example :=
  (prepare_example rng randbelow random_lt_half build_inputs_with_special_tokens
     create_token_type_ids_from_sequences convert_ids_to_tokens _whole_word_mask).
Notation prepare_examples :=
  (_prepare_wwm_and_sop_from_examples rng randbelow random_lt_half
     build_inputs_with_special_tokens create_token_type_ids_from_sequences
     convert_ids_to_tokens _whole_word_mask).
Notation collate :=
  (__call__ rng randbelow random_lt_half build_inputs_with_special_tokens
     create_token_type_ids_from_sequences convert_ids_to_tokens _whole_word_mask
     tokenizer_pad torch_mask_tokens).

Lemma randrange_ok (start stop x : Z) (g g' : rng) :
  randrange rng randbelow start stop g = (Ok x, g') → (start ≤ x < stop)%Z.
Proof.
  unfold randrange. destruct (Z.ltb_spec 0 (stop - start)) as [Hw|Hw]; [|done].
  pose proof (randbelow_range (stop - start) g Hw) as Hr.
  destruct (randbelow (stop - start) g) as [k g1]. simpl in Hr.
  intros [= <- <-]. lia.
Qed.

Lemma randrange_empty (start stop : Z) (g : rng) :
  (stop ≤ start)%Z →
  randrange rng randbelow start stop g
  = (Raise (ValueError "empty range for randrange()"), g).
Proof.
  intros H. unfold randrange. by destruct (Z.ltb_spec 0 (stop - start)); [lia|].
Qed.

Lemma choose_split_position_ok (chunk_ids : list Z) (sp : Z) (g g' : rng) :
  choose_split_position rng randbelow chunk_ids g = (Ok sp, g') →
  (Z.of_nat (length chunk_ids) / 3 ≤ sp < Z.of_nat (length chunk_ids) / 3 * 2)%Z.
Proof. apply randrange_ok. Qed.

Lemma choose_split_position_short (chunk_ids : list Z) (g : rng) :
  length chunk_ids < 3 →
  choose_split_position rng randbelow chunk_ids g
  = (Raise (ValueError "empty range for randrange()"), g).
Proof.
  intros H. apply randrange_empty. rewrite Z.div_small by lia. lia.
Qed.

(** How a built example comes from its chunk and the draws. *)
Lemma prepare_example_inv (example : gmap string (list Z)) (e : Example) (g g' : rng) :
  prepare_example example g = (Ok e, g') →
  ∃ chunk_ids split_position g1 reverse g2,
    example !! "input_ids" = Some chunk_ids
    ∧ choose_split_position rng randbelow chunk_ids g = (Ok split_position, g1)
    ∧ random_lt_half g1 = (reverse, g2)
    ∧ input_ids e
      = build_inputs_with_special_tokens
          (segments chunk_ids split_position reverse).1
          (segments chunk_ids split_position reverse).2
    ∧ token_type_ids e
      = create_token_type_ids_from_sequences
          (segments chunk_ids split_position reverse).1
          (segments chunk_ids split_position reverse).2
    ∧ next_sentence_label e = (if reverse then 1%Z else 0%Z)
    ∧ _whole_word_mask (convert_ids_to_tokens (input_ids e)) g2 = (Ok (mask_label e), g').
Proof.
  unfold Collator.prepare_example, bind, lift, ret.
  destruct (example !! "input_ids") as [chunk_ids|]; [|done].
  destruct (choose_split_position _ _ chunk_ids g) as [[sp| |] g1] eqn:Hsp; [|done..].
  destruct (random_lt_half g1) as [reverse g2] eqn:Hrev.
  destruct (segments chunk_ids sp reverse) as [token_a token_b] eqn:Hseg.
  destruct (_whole_word_mask _ g2) as [[mask| |] g3] eqn:Hmask; [|done..].
  intros [= <- <-]. exists chunk_ids, sp, g1, reverse, g2.
  rewrite Hseg. by simpl.
Qed.

Lemma prepare_examples_inv (examples : list (gmap string (list Z)))
    (out : list Example) (g g' : rng) :
  prepare_examples examples g = (Ok out, g') →
  Forall2 (λ example e, ∃ g0 g1, prepare_example example g0 = (Ok e, g1)) examples out.
Proof.
  revert out g. induction examples as [|example rest IH]; intros out g; simpl.
  - intros [= <- <-]. constructor.
  - unfold bind at 1.
    destruct (prepare_example example g) as [[e| |] g1] eqn:He; [|done..].
    unfold bind at 1.
    destruct (prepare_examples rest g1) as [[es| |] g2] eqn:Hr; [|done..].
    intros [= <- <-]. constructor; [eauto|]. by eapply IH.
Qed.

Lemma prepare_example_ignores_mask_label (example : gmap string (list Z)) :
  prepare_example (delete "mask_label" example) = prepare_example example.
Proof.
  unfold Collator.prepare_example. by rewrite lookup_delete_ne.
Qed.

Lemma prepare_examples_ignore_mask_label (examples : list (gmap string (list Z))) :
  prepare_examples (delete "mask_label" <$> examples) = prepare_examples examples.
Proof.
  induction examples as [|example rest IH]; [done|].
  rewrite fmap_cons. cbn [_prepare_wwm_and_sop_from_examples].
  by rewrite IH, prepare_example_ignores_mask_label.
Qed.

Lemma prepare_examples_short_head (example : gmap string (list Z))
    (rest : list (gmap string (list Z))) (chunk_ids : list Z) (g : rng) :
  example !! "input_ids" = Some chunk_ids → length chunk_ids < 3 →
  prepare_examples (example :: rest) g
  = (Raise (ValueError "empty range for randrange()"), g).
Proof.
  intros Hc Hlen. cbn [_prepare_wwm_and_sop_from_examples].
  unfold bind at 1. unfold Collator.prepare_example, bind, lift.
  by rewrite Hc, choose_split_position_short.
Qed.

(** C6, as amended. For every example Stage A builds from a chunk of length
    n, the chosen split position satisfies n//3 ≤ split_position < (n//3)*2
    (and then n ≥ 3: the range is not empty); whenever the range is not
    empty (n ≥ 3) a split position is chosen, within these bounds. When the
    range is empty (n < 3) there is no fallback: [random.randrange] raises a
    [ValueError], which ends Stage A. *)
Theorem C6_split_position_in_range :
  (∀ examples g out g',
     prepare_examples examples g = (Ok out, g') →
     Forall2 (λ example e,
        ∃ chunk_ids split_position reverse g0 g1,
          example !! "input_ids" = Some chunk_ids
          ∧ choose_split_position rng randbelow chunk_ids g0 = (Ok split_position, g1)
          ∧ (Z.of_nat (length chunk_ids) / 3 ≤ split_position
             < Z.of_nat (length chunk_ids) / 3 * 2)%Z
          ∧ 3 ≤ length chunk_ids
          ∧ input_ids e
            = build_inputs_with_special_tokens
                (segments chunk_ids split_position reverse).1
                (segments chunk_ids split_position reverse).2)
       examples out)
  ∧ (∀ chunk_ids g,
       3 ≤ length chunk_ids →
       ∃ split_position g',
         choose_split_position rng randbelow chunk_ids g = (Ok split_position, g')
         ∧ (Z.of_nat (length chunk_ids) / 3 ≤ split_position
            < Z.of_nat (length chunk_ids) / 3 * 2)%Z)
  ∧ (∀ chunk_ids g,
       length chunk_ids < 3 →
       (Z.of_nat (length chunk_ids) / 3 = Z.of_nat (length chunk_ids) / 3 * 2)%Z
       ∧ choose_split_position rng randbelow chunk_ids g
         = (Raise (ValueError "empty range for randrange()"), g)
       ∧ ∀ example rest,
           example !! "input_ids" = Some chunk_ids →
           raises "ValueError" (prepare_examples (example :: rest) g).1).
Proof.
  split; [|split].
  - intros examples g out g' H. apply prepare_examples_inv in H.
    eapply Forall2_impl; [exact H|]. intros example e (g0 & g1 & He).
    apply prepare_example_inv in He
      as (chunk_ids & sp & g2 & reverse & g3 & Hc & Hsp & _ & Hids & _).
    pose proof (choose_split_position_ok _ _ _ _ Hsp) as Hr.
    exists chunk_ids, sp, reverse, g0, g2. repeat split; try done; try lia.
    destruct (decide (3 ≤ length chunk_ids)) as [|Hn]; [done|].
    rewrite Z.div_small in Hr by lia. lia.
  - intros chunk_ids g Hlen.
    destruct (choose_split_position rng randbelow chunk_ids g) as [r g'] eqn:Hsp.
    pose proof Hsp as Hsp'. unfold choose_split_position, randrange in Hsp'.
    assert (1 ≤ Z.of_nat (length chunk_ids) / 3)%Z by (apply Z.div_le_lower_bound; lia).
    destruct (Z.ltb_spec 0 (Z.of_nat (length chunk_ids) / 3 * 2
                            - Z.of_nat (length chunk_ids) / 3)); [|lia].
    destruct (randbelow _ g) as [k g1]. injection Hsp' as <- <-.
    eexists _, _. split; [reflexivity|]. by eapply choose_split_position_ok.
  - intros chunk_ids g Hlen. split; [rewrite Z.div_small by lia; lia|].
    split; [by apply choose_split_position_short|].
    intros example rest Hc. rewrite (prepare_examples_short_head _ _ _ _ Hc Hlen).
    by eexists.
Qed.

(** C8. For every example Stage A builds, the sentence-order label is 1 if
    and only if the reverse branch was taken; when reversed, segment A is
    chunk[split_position:] and segment B is chunk[:split_position];
    otherwise segment A is chunk[:split_position], segment B is
    chunk[split_position:] and the label is 0. The segments are what the
    tokenizer receives to build [input_ids] and [token_type_ids]. *)
Theorem C8_sentence_order_label :
  ∀ examples g out g',
    prepare_examples examples g = (Ok out, g') →
    Forall2 (λ example e,
       ∃ chunk_ids split_position g0 g1 reverse g2,
         example !! "input_ids" = Some chunk_ids
         ∧ choose_split_position rng randbelow chunk_ids g0 = (Ok split_position, g1)
         ∧ random_lt_half g1 = (reverse, g2)
         ∧ (next_sentence_label e = 1%Z ↔ reverse = true)
         ∧ (reverse = true →
            input_ids e
            = build_inputs_with_special_tokens
                (slice_from chunk_ids split_position) (slice_to chunk_ids split_position)
            ∧ token_type_ids e
              = create_token_type_ids_from_sequences
                  (slice_from chunk_ids split_position) (slice_to chunk_ids split_position))
         ∧ (reverse = false →
            next_sentence_label e = 0%Z
            ∧ input_ids e
              = build_inputs_with_special_tokens
                  (slice_to chunk_ids split_position) (slice_from chunk_ids split_position)
            ∧ token_type_ids e
              = create_token_type_ids_from_sequences
                  (slice_to chunk_ids split_position) (slice_from chunk_ids split_position)))
      examples out.
Proof.
  intros examples g out g' H. apply prepare_examples_inv in H.
  eapply Forall2_impl; [exact H|]. intros example e (g0 & g1 & He).
  apply prepare_example_inv in He
    as (chunk_ids & sp & g2 & reverse & g3 & Hc & Hsp & Hrev & Hids & Htt & Hlabel & _).
  exists chunk_ids, sp, g0, g2, reverse, g3.
  split; [done|]. split; [done|]. split; [done|].
  rewrite Hids, Htt, Hlabel. destruct reverse; simpl; split; try split; try done.
  all: intros; try split; done.
Qed.

Lemma prepare_example_no_input_ids (example : gmap string (list Z)) (g : rng) :
  example !! "input_ids" = None →
  prepare_example example g = (Raise (KeyError "input_ids"), g).
Proof.
  intros Hnone. unfold Collator.prepare_example. unfold bind at 1. unfold lift.
  by rewrite Hnone.
Qed.

(** Stage A stops at the first example that raises, after the examples
    before it. *)
Lemma prepare_examples_app_raise (before rest : list (gmap string (list Z)))
    (g g1 g2 : rng) (out : list Example) (e : exn) :
  prepare_examples before g = (Ok out, g1) →
  prepare_examples rest g1 = (Raise e, g2) →
  prepare_examples (before ++ rest) g = (Raise e, g2).
Proof.
  revert g out. induction before as [|example before IH]; intros g out.
  - cbn [_prepare_wwm_and_sop_from_examples]. by intros [= <- <-].
  - rewrite <- app_comm_cons. cbn [_prepare_wwm_and_sop_from_examples].
    unfold bind at 1 3.
    destruct (prepare_example example g) as [[e0| |] g0]; [|done..].
    unfold bind.
    destruct (prepare_examples before g0) as [[es| |] g3] eqn:Hb; [|done..].
    intros [= <- <-] Hrest. by rewrite (IH _ _ Hb Hrest).
Qed.

Lemma prepare_examples_have_input_ids (examples : list (gmap string (list Z)))
    (out : list Example) (g g' : rng) :
  prepare_examples examples g = (Ok out, g') →
  Forall (λ example : gmap string (list Z), is_Some (example !! "input_ids")) examples.
Proof.
  intros H%prepare_examples_inv.
  induction H as [|example e examples out (g0 & g1 & He) _ IH]; constructor; [|done].
  apply prepare_example_inv in He as (chunk_ids & _ & _ & _ & _ & Hc & _). eauto.
Qed.

(** C9, as amended. A call never looks for [mask_label] in its input
    examples: it computes that field itself, so its absence changes nothing
    and raises nothing. What a call does raise is a [KeyError]: for
    [input_ids] when Stage A comes to an example that lacks that field,
    wherever the example stands in the batch (the examples before it having
    been built), so that a batch holding such an example is never returned;
    and for [mask_label] when the batch returned by the tokenizer's padding
    lacks it. *)
Theorem C9_mask_label_not_required (self : t) :
  (∀ examples, collate self (delete "mask_label" <$> examples) = collate self examples)
  ∧ (∀ before example after g out g1,
       prepare_examples before g = (Ok out, g1) →
       example !! "input_ids" = None →
       collate self (before ++ example :: after) g = (Raise (KeyError "input_ids"), g1))
  ∧ (∀ examples example g,
       example ∈ examples →
       example !! "input_ids" = None →
       ∀ result g', collate self examples g ≠ (Ok result, g'))
  ∧ (∀ examples g out g1 batch g2,
       prepare_examples examples g = (Ok out, g1) →
       tokenizer_pad out (pad_to_multiple_of self) g1 = (Ok batch, g2) →
       Dict.get "mask_label" batch = None →
       collate self examples g = (Raise (KeyError "mask_label"), g2)).
Proof.
  split; [|split; [|split]].
  - intros examples. unfold __call__. by rewrite prepare_examples_ignore_mask_label.
  - intros before example after g out g1 Hbefore Hnone. unfold __call__.
    unfold bind at 1.
    rewrite (prepare_examples_app_raise before (example :: after) g g1 g1 out
               (KeyError "input_ids") Hbefore); [done|].
    cbn [_prepare_wwm_and_sop_from_examples]. unfold bind at 1.
    by rewrite prepare_example_no_input_ids.
  - intros examples example g Hin Hnone result g'. unfold __call__. unfold bind at 1.
    destruct (prepare_examples examples g) as [[out| |] g1] eqn:Hprep; [|done..].
    apply prepare_examples_have_input_ids in Hprep.
    rewrite Forall_forall in Hprep. destruct (Hprep example Hin) as [ids Hids].
    congruence.
  - intros examples g out g1 batch g2 Hprep Hpad Hget. unfold __call__.
    unfold bind at 1. rewrite Hprep. unfold bind at 1. rewrite Hpad.
    unfold bind at 1. unfold lift, Dict.pop. by rewrite Hget.
Qed.

End StageA.

Lemma C6_split_position_in_range_witness :
  let chunk_ids := [11; 12; 13; 14; 15; 16]%Z in
  (∀ (n : Z) (g : Toy.rng), (0 < n)%Z → (0 ≤ (Toy.randbelow n g).1 < n)%Z)
  ∧ (∃ out g', Toy.prepare [ {[ "input_ids" := chunk_ids ]} ] 1 = (Ok out, g'))
  ∧ ∃ split_position g0 g1,
      Collator.choose_split_position Toy.rng Toy.randbelow chunk_ids g0
      = (Ok split_position, g1)
      ∧ (Z.of_nat (length chunk_ids) / 3 ≤ split_position
         < Z.of_nat (length chunk_ids) / 3 * 2)%Z.
Proof.
  intros chunk_ids.
  split; [exact Toy_randbelow_range|].
  assert (Hrun : ∃ out g', Toy.prepare [ {[ "input_ids" := chunk_ids ]} ] 1 = (Ok out, g'))
    by (eexists _, _; vm_compute; reflexivity).
  split; [exact Hrun|].
  destruct Hrun as (out & g' & Hrun).
  pose proof (proj1 (C6_split_position_in_range Toy.rng Toy.randbelow Toy.random_lt_half
                       Toy.build_inputs_with_special_tokens
                       Toy.create_token_type_ids_from_sequences
                       Toy.convert_ids_to_tokens Toy._whole_word_mask
                       Toy_randbelow_range) _ _ _ _ Hrun) as H.
  destruct out as [|e out]; [by apply Forall2_nil_inv_r in H|].
  apply Forall2_cons_1 in H as [(c & sp & rev & g0 & g1 & Hc & Hsp & Hr & _) _].
  rewrite lookup_singleton_eq in Hc. injection Hc as <-.
  exists sp, g0, g1. split; [exact Hsp|exact Hr].
Defined.

(** C6 as stated fails for a chunk of length 2: the range [0, 0) is empty
    and Stage A ends in a [ValueError], not in a fallback. *)
Lemma C6_counterexample :
  let chunk_ids := [7; 8]%Z in
  (Z.of_nat (length chunk_ids) / 3 = Z.of_nat (length chunk_ids) / 3 * 2)%Z
  ∧ raises "ValueError" (Toy.prepare [ {[ "input_ids" := chunk_ids ]} ] 0).1.
Proof.
  intros chunk_ids. split; [reflexivity|]. eexists. split; [vm_compute; reflexivity|done].
Qed.

Lemma C8_sentence_order_label_witness :
  let examples : list (gmap string (list Z)) :=
    [ {[ "input_ids" := [11; 12; 13; 14; 15; 16]%Z ]};
      {[ "input_ids" := [21; 22; 23; 24; 25; 26; 27]%Z ]} ] in
  ∃ out g',
    Toy.prepare examples 1 = (Ok out, g')
    ∧ Collator.next_sentence_label <$> out = [1; 1]%Z
    ∧ Forall2 (λ example e,
         ∃ chunk_ids split_position g0 g1 reverse g2,
           example !! "input_ids" = Some chunk_ids
           ∧ Collator.choose_split_position Toy.rng Toy.randbelow chunk_ids g0
             = (Ok split_position, g1)
           ∧ Toy.random_lt_half g1 = (reverse, g2)
           ∧ (Collator.next_sentence_label e = 1%Z ↔ reverse = true)
           ∧ (reverse = true →
              Collator.input_ids e
              = Toy.build_inputs_with_special_tokens
                  (slice_from chunk_ids split_position) (slice_to chunk_ids split_position)
              ∧ Collator.token_type_ids e
                = Toy.create_token_type_ids_from_sequences
                    (slice_from chunk_ids split_position)
                    (slice_to chunk_ids split_position))
           ∧ (reverse = false →
              Collator.next_sentence_label e = 0%Z
              ∧ Collator.input_ids e
                = Toy.build_inputs_with_special_tokens
                    (slice_to chunk_ids split_position)
                    (slice_from chunk_ids split_position)
              ∧ Collator.token_type_ids e
                = Toy.create_token_type_ids_from_sequences
                    (slice_to chunk_ids split_position)
                    (slice_from chunk_ids split_position)))
        examples out.
Proof.
  intros examples.
  eexists _, _. split; [vm_compute; reflexivity|]. split; [reflexivity|].
  apply (C8_sentence_order_label Toy.rng Toy.randbelow Toy.random_lt_half
           Toy.build_inputs_with_special_tokens Toy.create_token_type_ids_from_sequences
           Toy.convert_ids_to_tokens Toy._whole_word_mask examples 1 _ 5).
  vm_compute. reflexivity.
Defined.

Lemma C9_mask_label_not_required_witness :
  let self := Collator.Build None 0 None None None in
  let with_mask : gmap string (list Z) :=
    {[ "input_ids" := [11; 12; 13; 14; 15; 16]%Z; "mask_label" := [0; 0; 0; 0; 0; 0]%Z ]} in
  let valid : gmap string (list Z) := {[ "input_ids" := [11; 12; 13; 14; 15; 16]%Z ]} in
  let without_ids : gmap string (list Z) := {[ "mask_label" := [0; 0]%Z ]} in
  Toy.collate self (delete "mask_label" <$> [with_mask]) = Toy.collate self [with_mask]
  ∧ without_ids !! "input_ids" = None
  ∧ (∃ out, Toy.prepare [valid] 0 = (Ok out, 2))
  ∧ Toy.collate self ([valid] ++ without_ids :: [valid]) 0
    = (Raise (KeyError "input_ids"), 2)
  ∧ (∀ result g', Toy.collate self [valid; without_ids] 0 ≠ (Ok result, g'))
  ∧ (∃ out batch,
       Toy.prepare [valid] 0 = (Ok out, 2)
       ∧ Toy.tokenizer_pad_without_mask out None 2 = (Ok batch, 2)
       ∧ Dict.get "mask_label" batch = None
       ∧ Collator.__call__ Toy.rng Toy.randbelow Toy.random_lt_half
           Toy.build_inputs_with_special_tokens Toy.create_token_type_ids_from_sequences
           Toy.convert_ids_to_tokens Toy._whole_word_mask Toy.tokenizer_pad_without_mask
           Toy.torch_mask_tokens self [valid] 0
         = (Raise (KeyError "mask_label"), 2)).
Proof.
  intros self with_mask valid without_ids.
  pose proof (C9_mask_label_not_required Toy.rng Toy.randbelow Toy.random_lt_half
                Toy.build_inputs_with_special_tokens
                Toy.create_token_type_ids_from_sequences Toy.convert_ids_to_tokens
                Toy._whole_word_mask Toy.tokenizer_pad Toy.torch_mask_tokens self)
    as (Ha & Hb & Hc & _).
  pose proof (C9_mask_label_not_required Toy.rng Toy.randbelow Toy.random_lt_half
                Toy.build_inputs_with_special_tokens
                Toy.create_token_type_ids_from_sequences Toy.convert_ids_to_tokens
                Toy._whole_word_mask Toy.tokenizer_pad_without_mask
                Toy.torch_mask_tokens self)
    as (_ & _ & _ & Hd).
  assert (Hnone : without_ids !! "input_ids" = None) by (vm_compute; reflexivity).
  destruct (Toy.prepare [valid] 0) as [[out| |] g1] eqn:Hprep;
    try (vm_compute in Hprep; discriminate Hprep).
  assert (g1 = 2) as -> by (vm_compute in Hprep; by injection Hprep).
  destruct (Toy.tokenizer_pad_without_mask out None 2) as [[batch| |] g2] eqn:Hpad;
    try (vm_compute in Hprep; injection Hprep as <-; vm_compute in Hpad; discriminate Hpad).
  assert (g2 = 2) as ->
    by (vm_compute in Hprep; injection Hprep as <-; vm_compute in Hpad; by injection Hpad).
  assert (Hget : Dict.get "mask_label" batch = None)
    by (vm_compute in Hprep; injection Hprep as <-; vm_compute in Hpad;
        injection Hpad as <-; reflexivity).
  split; [exact (Ha [with_mask])|].
  split; [exact Hnone|].
  split; [by exists out|].
  split; [exact (Hb [valid] without_ids [valid] 0 out 2 Hprep Hnone)|].
  split.
  - apply (Hc [valid; without_ids] without_ids 0); [|exact Hnone].
    apply elem_of_cons. right. apply elem_of_cons. by left.
  - exists out, batch. split; [reflexivity|]. split; [exact Hpad|]. split; [exact Hget|].
    exact (Hd [valid] 0 out 2 batch 2 Hprep Hpad Hget).
Defined.

(** C9 as stated fails: a call on an example that has [input_ids] and no
    [mask_label] returns a batch and raises nothing. *)
Lemma C9_counterexample :
  let self := Collator.Build None 0 None None None in
  let examples : list (gmap string (list Z)) :=
    [ {[ "input_ids" := [11; 12; 13; 14; 15; 16]%Z ]} ] in
  Forall (λ example : gmap string (list Z), example !! "mask_label" = None) examples
  ∧ (∃ batch g', Toy.collate self examples 0 = (Ok batch, g'))
  ∧ ¬ raises "SchemaError" (Toy.collate self examples 0).1.
Proof.
  intros self examples. split; [by repeat constructor|]. split.
  - eexists _, _. vm_compute. reflexivity.
  - intros (e & He & _). vm_compute in He. discriminate He.
Qed.

(** * Further properties of the processor *)

Section ChunkFacts.
Import Processor.

Variable tokenize : string → list Z.
Variable sep_token_id : Z.

Lemma slice_to_length {A} (l : list A) (k : Z) :
  (0 ≤ k ≤ Z.of_nat (length l))%Z → length (slice_to l k) = Z.to_nat k.
Proof. intros Hk. rewrite slice_to_nonneg by done. rewrite length_take. lia. Qed.

(** The loop only ever emits chunks of exactly [chunk_size] ids. *)
Lemma drain_chunk_lengths fuel cs out buffer out' buffer' :
  drain fuel cs out buffer = Some (out', buffer') →
  Forall (λ c, Z.of_nat (length c) = cs) out →
  Forall (λ c, Z.of_nat (length c) = cs) out'.
Proof.
  revert out buffer. induction fuel as [|fuel IH]; intros out buffer; simpl.
  - destruct (Z.leb_spec cs (Z.of_nat (length buffer))); [done|]. by intros [= <- <-].
  - destruct (Z.leb_spec cs (Z.of_nat (length buffer))) as [Hle|]; [|by intros [= <- <-]].
    intros H Hall. destruct (decide (0 < cs)%Z) as [Hpos|Hneg].
    + apply IH in H; [done|]. apply Forall_app. split; [done|].
      constructor; [|constructor]. rewrite slice_to_length by lia. lia.
    + rewrite drain_diverges in H by lia. done.
Qed.

Lemma for_input_ids_chunk_lengths fuel cs l out buffer out' buffer' :
  for_input_ids sep_token_id fuel cs l out buffer = Some (out', buffer') →
  Forall (λ c, Z.of_nat (length c) = cs) out →
  Forall (λ c, Z.of_nat (length c) = cs) out'.
Proof.
  revert out buffer. induction l as [|ids l IH]; intros out buffer; simpl.
  - by intros [= <- <-].
  - destruct (drain _ _ _ _) as [[o b]|] eqn:Hd; [|done].
    intros H Hall. eapply IH; [exact H|]. eapply drain_chunk_lengths; eauto.
Qed.

Lemma call_chunk_lengths fuel examples self d self' :
  __call__ tokenize sep_token_id fuel examples self = (Ok d, self') →
  Forall (λ c, Z.of_nat (length c) = _chunk_size self) (chunks_of d).
Proof.
  intros (texts & out & _ & Hf & -> & _)%call_ok_inv.
  unfold chunks_of. rewrite lookup_singleton_eq. simpl.
  eapply for_input_ids_chunk_lengths; [exact Hf|constructor].
Qed.

Lemma call_chunk_size fuel examples self d self' :
  __call__ tokenize sep_token_id fuel examples self = (Ok d, self') →
  _chunk_size self' = _chunk_size self.
Proof. by intros (texts & out & _ & _ & _ & ?)%call_ok_inv. Qed.

Lemma calls_chunk_lengths fuel batches self ds self' :
  calls tokenize sep_token_id fuel batches self = (Ok ds, self') →
  Forall (λ c, Z.of_nat (length c) = _chunk_size self) (emitted ds).
Proof.
  revert self ds. induction batches as [|examples rest IH]; intros self ds; simpl.
  - intros [= <- <-]. constructor.
  - unfold bind.
    destruct (__call__ _ _ _ _ _) as [[d| |] self1] eqn:Hc; [|done..].
    destruct (calls _ _ _ _ _) as [[ds1| |] self2] eqn:Hr; [|done..].
    intros [= <- <-]. unfold emitted. rewrite bind_cons. apply Forall_app. split.
    + by eapply call_chunk_lengths.
    + rewrite <- (call_chunk_size _ _ _ _ _ Hc). by eapply IH.
Qed.

Lemma concat_length_const (cs : Z) (out : list (list Z)) :
  Forall (λ c, Z.of_nat (length c) = cs) out →
  Z.of_nat (length (concat out)) = (Z.of_nat (length out) * cs)%Z.
Proof.
  induction 1 as [|c out Hc _ IH]; simpl; [lia|]. rewrite length_app. lia.
Qed.

(** Chunks of one size and a remainder below that size are determined by
    their concatenation. *)
Lemma chunks_unique (cs : Z) (out out' : list (list Z)) (b b' : list Z) :
  (0 < cs)%Z →
  Forall (λ c, Z.of_nat (length c) = cs) out →
  Forall (λ c, Z.of_nat (length c) = cs) out' →
  (Z.of_nat (length b) < cs)%Z → (Z.of_nat (length b') < cs)%Z →
  concat out ++ b = concat out' ++ b' →
  out = out' ∧ b = b'.
Proof.
  intros Hcs Hall. revert out'. induction Hall as [|c out Hc _ IH]; intros out' Hall' Hb Hb' Heq.
  - destruct Hall' as [|c' out' Hc' _]; simpl in Heq; [done|].
    apply (f_equal length) in Heq. rewrite <- app_assoc, length_app in Heq. lia.
  - destruct Hall' as [|c' out' Hc' Hall']; simpl in Heq.
    + apply (f_equal length) in Heq. rewrite <- app_assoc, length_app in Heq. lia.
    + rewrite <- !app_assoc in Heq. apply app_inj_1 in Heq as [-> Heq]; [|lia].
      destruct (IH out' Hall' Hb Hb' Heq) as [-> ->]. done.
Qed.

Lemma stream_of_texts_bind (batches : list (gmap string (list string))) :
  stream_of_texts tokenize sep_token_id
    (batches ≫= (λ examples, default [] (examples !! "text")))
  = stream tokenize sep_token_id batches.
Proof.
  unfold stream, stream_of, stream_of_texts.
  induction batches as [|examples rest IH]; [done|].
  rewrite !bind_cons, bind_app. by rewrite IH.
Qed.

End ChunkFacts.

(** X1. Every chunk a run of calls emits has exactly [chunk_size] ids,
    whatever the state the run starts in and whatever [max_length] is. *)
Theorem X1_chunks_have_chunk_size
    (tokenize : string → list Z) (sep_token_id : Z) (fuel : nat)
    (batches : list (gmap string (list string)))
    (self self' : Processor.t) (ds : list (gmap string (list (list Z)))) :
  Processor.calls tokenize sep_token_id fuel batches self = (Ok ds, self') →
  Forall (λ chunk, Z.of_nat (length chunk) = Processor._chunk_size self)
    (Processor.emitted ds).
Proof. apply calls_chunk_lengths. Qed.

Lemma X1_chunks_have_chunk_size_witness :
  let batches : list (gmap string (list string)) :=
    [ {[ "text" := ["ab"; "cde"] ]}; {[ "text" := ["g"] ]} ] in
  ∃ ds self',
    Processor.calls Toy.tokenize Toy.sep_token_id 9 batches (Processor.__init__ 7)
    = (Ok ds, self')
    ∧ Forall (λ chunk, Z.of_nat (length chunk) = 4%Z) (Processor.emitted ds).
Proof.
  intros batches. eexists _, _. split; [vm_compute; reflexivity|].
  apply (X1_chunks_have_chunk_size Toy.tokenize Toy.sep_token_id 9 batches
           (Processor.__init__ 7)
           (Processor.Build 4 [102%Z] [["ab"; "cde"]; ["g"]])).
  vm_compute. reflexivity.
Defined.

(** X2. Starting with a buffer below the chunk size, a run of calls that
    returns has emitted floor(total / chunk_size) chunks and keeps
    total mod chunk_size ids in the buffer, where total is the length of the
    starting buffer plus the length of the token stream of the run. *)
Theorem X2_chunk_count_and_remainder
    (tokenize : string → list Z) (sep_token_id : Z) (fuel : nat)
    (batches : list (gmap string (list string)))
    (self self' : Processor.t) (ds : list (gmap string (list (list Z)))) :
  (Z.of_nat (length (Processor._buffer self)) < Processor._chunk_size self)%Z →
  Processor.calls tokenize sep_token_id fuel batches self = (Ok ds, self') →
  let total :=
    Z.of_nat (length (Processor._buffer self)
              + length (Processor.stream tokenize sep_token_id batches)) in
  Z.of_nat (length (Processor.emitted ds)) = (total / Processor._chunk_size self)%Z
  ∧ Z.of_nat (length (Processor._buffer self')) = (total mod Processor._chunk_size self)%Z.
Proof.
  intros Hbelow Hrun total.
  pose proof (calls_chunk_lengths _ _ _ _ _ _ _ Hrun) as Hall.
  pose proof (calls_keep_below _ _ _ _ _ _ _ Hbelow Hrun) as [Hb' Hcs].
  pose proof (calls_conserve _ _ _ _ _ _ _ Hrun) as Hcons.
  apply (f_equal length) in Hcons. rewrite !length_app in Hcons.
  apply concat_length_const in Hall. rewrite Hcs in Hb'.
  assert (Htotal : total = (Processor._chunk_size self
                            * Z.of_nat (length (Processor.emitted ds))
                            + Z.of_nat (length (Processor._buffer self')))%Z)
    by (unfold total; lia).
  split.
  - apply (Z.div_unique _ _ _ (Z.of_nat (length (Processor._buffer self')))); [lia|done].
  - apply (Z.mod_unique _ _ (Z.of_nat (length (Processor.emitted ds)))); [lia|done].
Qed.

Lemma X2_chunk_count_and_remainder_witness :
  let batches : list (gmap string (list string)) :=
    [ {[ "text" := ["abcdefghijklmnopqrstuvwxy"] ]} ] in
  ∃ ds self',
    Processor.calls Toy.tokenize Toy.sep_token_id 30 batches (Processor.__init__ 13)
    = (Ok ds, self')
    ∧ Z.of_nat (length (Processor.emitted ds)) = 2%Z
    ∧ Z.of_nat (length (Processor._buffer self')) = 6%Z.
Proof.
  intros batches.
  destruct (Processor.calls Toy.tokenize Toy.sep_token_id 30 batches (Processor.__init__ 13))
    as [[ds| |] self'] eqn:Hrun; try (vm_compute in Hrun; discriminate Hrun).
  exists ds, self'. split; [reflexivity|].
  exact (X2_chunk_count_and_remainder Toy.tokenize Toy.sep_token_id 30 batches
           (Processor.__init__ 13) self' ds eq_refl Hrun).
Defined.

(** X3. The chunks do not depend on how the texts are cut into batches:
    starting with a buffer below the chunk size, a run of calls emits the
    same chunks, and ends with the same buffer, as a single call on one
    batch holding all the texts of the run in order. *)
Theorem X3_batching_independence
    (tokenize : string → list Z) (sep_token_id : Z) (fuel fuel1 : nat)
    (batches : list (gmap string (list string)))
    (self self' self1 : Processor.t)
    (ds : list (gmap string (list (list Z)))) (d1 : gmap string (list (list Z))) :
  (Z.of_nat (length (Processor._buffer self)) < Processor._chunk_size self)%Z →
  Processor.calls tokenize sep_token_id fuel batches self = (Ok ds, self') →
  Processor.__call__ tokenize sep_token_id fuel1
    {[ "text" := batches ≫= (λ examples, default [] (examples !! "text")) ]} self
  = (Ok d1, self1) →
  Processor.emitted ds = Processor.chunks_of d1
  ∧ Processor._buffer self' = Processor._buffer self1.
Proof.
  intros Hbelow Hrun Hone.
  pose proof (calls_chunk_lengths _ _ _ _ _ _ _ Hrun) as Hall.
  pose proof (calls_keep_below _ _ _ _ _ _ _ Hbelow Hrun) as [Hb Hcs].
  pose proof (calls_conserve _ _ _ _ _ _ _ Hrun) as Hcons.
  pose proof (call_chunk_lengths _ _ _ _ _ _ _ Hone) as Hall1.
  pose proof (call_keeps_below _ _ _ _ _ _ _ Hbelow Hone) as [Hb1 Hcs1].
  pose proof (call_conserves _ _ _ _ _ _ _ Hone) as Hcons1.
  unfold Processor.stream_of in Hcons1. rewrite lookup_singleton_eq in Hcons1.
  simpl in Hcons1. rewrite stream_of_texts_bind in Hcons1.
  rewrite Hcs in Hb. rewrite Hcs1 in Hb1.
  apply (chunks_unique (Processor._chunk_size self));
    [lia|exact Hall|exact Hall1|exact Hb|exact Hb1|].
  by rewrite Hcons, Hcons1.
Qed.

Lemma X3_batching_independence_witness :
  let batches : list (gmap string (list string)) :=
    [ {[ "text" := ["ab"; "cde"] ]}; {[ "text" := ["g"] ]} ] in
  ∃ ds self' d1 self1,
    Processor.calls Toy.tokenize Toy.sep_token_id 9 batches (Processor.__init__ 7)
    = (Ok ds, self')
    ∧ Processor.__call__ Toy.tokenize Toy.sep_token_id 9
        {[ "text" := ["ab"; "cde"; "g"] ]} (Processor.__init__ 7) = (Ok d1, self1)
    ∧ Processor.emitted ds = Processor.chunks_of d1
    ∧ Processor._buffer self' = Processor._buffer self1.
Proof.
  intros batches.
  destruct (Processor.calls Toy.tokenize Toy.sep_token_id 9 batches (Processor.__init__ 7))
    as [[ds| |] self'] eqn:Hrun; try (vm_compute in Hrun; discriminate Hrun).
  destruct (Processor.__call__ Toy.tokenize Toy.sep_token_id 9
              {[ "text" := ["ab"; "cde"; "g"] ]} (Processor.__init__ 7))
    as [[d1| |] self1] eqn:Hone; try (vm_compute in Hone; discriminate Hone).
  exists ds, self', d1, self1. split; [reflexivity|]. split; [reflexivity|].
  exact (X3_batching_independence Toy.tokenize Toy.sep_token_id 9 9 batches
           (Processor.__init__ 7) self' self1 ds d1 eq_refl Hrun Hone).
Defined.

(** X4. With [max_length] of 3 or less the chunk size is not positive, and a
    call on a batch whose [text] column holds at least one text never leaves
    the [while] loop: the condition [len(buffer) >= chunk_size] stays true,
    so the call runs out of every amount of fuel. *)
Theorem X4_nonpositive_chunk_size_diverges
    (tokenize : string → list Z) (sep_token_id : Z)
    (examples : gmap string (list string)) (texts : list string) (self : Processor.t) :
  (Processor._chunk_size self ≤ 0)%Z →
  examples !! "text" = Some texts → texts ≠ [] →
  ∀ fuel, (Processor.__call__ tokenize sep_token_id fuel examples self).1 = OutOfFuel.
Proof.
  intros Hcs Ht Hne fuel. rewrite (call_text _ _ _ _ _ texts Ht).
  rewrite for_input_ids_diverges; [done|done|]. by destruct texts.
Qed.

Lemma X4_nonpositive_chunk_size_diverges_witness :
  (Processor._chunk_size (Processor.__init__ 3) ≤ 0)%Z
  ∧ ∀ fuel,
      (Processor.__call__ Toy.tokenize Toy.sep_token_id fuel
         {[ "text" := ["a"] ]} (Processor.__init__ 3)).1 = OutOfFuel.
Proof.
  assert (H : (Processor._chunk_size (Processor.__init__ 3) ≤ 0)%Z) by (vm_compute; discriminate).
  split; [exact H|].
  apply (X4_nonpositive_chunk_size_diverges Toy.tokenize Toy.sep_token_id
           {[ "text" := ["a"] ]} ["a"] (Processor.__init__ 3) H).
  - vm_compute. reflexivity.
  - discriminate.
Defined.

(** * Further properties of the collator *)

(** X5. The two segments of Stage A cut the chunk in two non-empty parts:
    for a split position chosen by the collator, neither segment is empty,
    the part before the split has [split_position] ids, and the two
    segments, put back in their original order, are the chunk. *)
Theorem X5_segments_partition_chunk
    (rng : Type) (randbelow : Z → rng → Z * rng)
    (chunk_ids : list Z) (split_position : Z) (g g' : rng) (reverse : bool) :
  (∀ (n : Z) (g : rng), (0 < n)%Z → (0 ≤ (randbelow n g).1 < n)%Z) →
  Collator.choose_split_position rng randbelow chunk_ids g = (Ok split_position, g') →
  let token_a := (Collator.segments chunk_ids split_position reverse).1 in
  let token_b := (Collator.segments chunk_ids split_position reverse).2 in
  token_a ≠ [] ∧ token_b ≠ []
  ∧ (if reverse then token_b ++ token_a else token_a ++ token_b) = chunk_ids
  ∧ Z.of_nat (length (if reverse then token_b else token_a)) = split_position.
Proof.
  intros Hrange Hsp token_a token_b.
  pose proof (choose_split_position_ok rng randbelow Hrange _ _ _ _ Hsp) as Hr.
  pose proof (Z.mul_div_le (Z.of_nat (length chunk_ids)) 3 ltac:(lia)) as Hle.
  assert (Hb : (1 ≤ split_position < Z.of_nat (length chunk_ids))%Z) by lia.
  assert (Hto : slice_to chunk_ids split_position = take (Z.to_nat split_position) chunk_ids)
    by (apply slice_to_nonneg; lia).
  assert (Hfrom : slice_from chunk_ids split_position
                  = drop (Z.to_nat split_position) chunk_ids)
    by (apply slice_from_nonneg; lia).
  assert (Hlt : length (take (Z.to_nat split_position) chunk_ids) = Z.to_nat split_position)
    by (rewrite length_take; lia).
  assert (Hld : length (drop (Z.to_nat split_position) chunk_ids)
                = length chunk_ids - Z.to_nat split_position)
    by apply length_drop.
  assert (Hne1 : take (Z.to_nat split_position) chunk_ids ≠ []).
  { intros E. rewrite E in Hlt. simpl in Hlt. lia. }
  assert (Hne2 : drop (Z.to_nat split_position) chunk_ids ≠ []).
  { intros E. rewrite E in Hld. simpl in Hld. lia. }
  unfold token_a, token_b, Collator.segments.
  destruct reverse; simpl; rewrite Hto, Hfrom, take_drop, Hlt;
    (split; [done|]); (split; [done|]); (split; [done|lia]).
Qed.

Lemma X5_segments_partition_chunk_witness :
  let chunk_ids := [11; 12; 13; 14; 15; 16]%Z in
  (∀ (n : Z) (g : Toy.rng), (0 < n)%Z → (0 ≤ (Toy.randbelow n g).1 < n)%Z)
  ∧ Collator.choose_split_position Toy.rng Toy.randbelow chunk_ids 1 = (Ok 3%Z, 2)
  ∧ (Collator.segments chunk_ids 3 true).1 ≠ []
  ∧ (Collator.segments chunk_ids 3 true).2 ≠ []
  ∧ (Collator.segments chunk_ids 3 true).2 ++ (Collator.segments chunk_ids 3 true).1
    = chunk_ids
  ∧ Z.of_nat (length (Collator.segments chunk_ids 3 true).2) = 3%Z.
Proof.
  intros chunk_ids.
  assert (Hsp : Collator.choose_split_position Toy.rng Toy.randbelow chunk_ids 1
                = (Ok 3%Z, 2)) by (vm_compute; reflexivity).
  split; [exact Toy_randbelow_range|]. split; [exact Hsp|].
  exact (X5_segments_partition_chunk Toy.rng Toy.randbelow chunk_ids 3 1 2 true
           Toy_randbelow_range Hsp).
Defined.

Section DictKeyFacts.
Context {V : Type}.
Implicit Types d : list (string * V).

Local Ltac dict_step :=
  cbn [Dict.get Dict.set Dict.remove]; rewrite ?fmap_cons, ?fmap_nil; cbn [fst].

Lemma dict_get_None (key : string) d : Dict.get key d = None ↔ key ∉ d.*1.
Proof.
  induction d as [|[k v] d IH]; dict_step.
  - split; [intros _; apply not_elem_of_nil|done].
  - rewrite not_elem_of_cons. destruct (String.eqb_spec k key) as [->|Hne].
    + split; [done|]. by intros [? _].
    + rewrite IH. split; [by intros ?; split|by intros [_ ?]].
Qed.

Lemma dict_get_Some_elem (key : string) (v : V) d :
  Dict.get key d = Some v → (key, v) ∈ d.
Proof.
  induction d as [|[k v'] d IH]; dict_step; [done|].
  destruct (String.eqb_spec k key) as [->|Hne].
  - intros [= ->]. apply elem_of_cons. by left.
  - intros H. apply elem_of_cons. right. by apply IH.
Qed.

Lemma dict_set_keys_elem (key : string) (v : V) d :
  key ∈ d.*1 → (Dict.set key v d).*1 = d.*1.
Proof.
  induction d as [|[k v'] d IH]; dict_step; intros Hin.
  - by apply elem_of_nil in Hin.
  - destruct (String.eqb_spec k key) as [->|Hne]; dict_step; [done|].
    apply elem_of_cons in Hin as [->|Hin]; [done|]. by rewrite IH.
Qed.

Lemma dict_set_keys_inv (key x : string) (v : V) d :
  x ∈ (Dict.set key v d).*1 → x = key ∨ x ∈ d.*1.
Proof.
  induction d as [|[k v'] d IH]; dict_step.
  - intros [->|[]%elem_of_nil]%elem_of_cons. by left.
  - destruct (String.eqb_spec k key) as [->|Hne]; dict_step.
    + intros H. by right.
    + intros [->|H]%elem_of_cons; [right; apply elem_of_cons; by left|].
      destruct (IH H) as [->|?]; [by left|right; apply elem_of_cons; by right].
Qed.

Lemma dict_set_NoDup (key : string) (v : V) d :
  NoDup d.*1 → NoDup (Dict.set key v d).*1.
Proof.
  induction d as [|[k v'] d IH]; dict_step; intros Hnd.
  - apply NoDup_singleton.
  - apply NoDup_cons in Hnd as [Hk Hnd].
    destruct (String.eqb_spec k key) as [->|Hne]; dict_step.
    + by apply NoDup_cons.
    + apply NoDup_cons. split; [|by apply IH].
      intros [->|?]%dict_set_keys_inv; done.
Qed.

Lemma dict_remove_keys_inv (key x : string) d :
  x ∈ (Dict.remove key d).*1 → x ∈ d.*1.
Proof.
  induction d as [|[k v] d IH]; dict_step; [done|].
  destruct (String.eqb_spec k key) as [->|Hne]; dict_step.
  - intros H. apply elem_of_cons. by right.
  - intros [->|H]%elem_of_cons; apply elem_of_cons; [by left|right; by apply IH].
Qed.

Lemma dict_remove_NoDup (key : string) d :
  NoDup d.*1 → NoDup (Dict.remove key d).*1.
Proof.
  induction d as [|[k v] d IH]; dict_step; intros Hnd; [done|].
  apply NoDup_cons in Hnd as [Hk Hnd].
  destruct (String.eqb_spec k key) as [->|Hne]; dict_step; [done|].
  apply NoDup_cons. split; [|by apply IH].
  intros H%dict_remove_keys_inv. done.
Qed.

Lemma dict_get_remove_eq (key : string) d :
  NoDup d.*1 → Dict.get key (Dict.remove key d) = None.
Proof.
  induction d as [|[k v] d IH]; dict_step; intros Hnd; [done|].
  apply NoDup_cons in Hnd as [Hk Hnd].
  destruct (String.eqb_spec k key) as [->|Hne]; dict_step.
  - by apply dict_get_None.
  - destruct (String.eqb_spec k key); [done|]. by apply IH.
Qed.

End DictKeyFacts.

Section ShardLoopKeys.
Import Collator.

Lemma shard_items_keys (pad ws rank : Z) (items acc acc' : list (string * Tensor.t)) :
  (∀ key, key ∈ items.*1 → key ∈ acc.*1) →
  shard_items pad ws rank items acc = Ok acc' →
  acc'.*1 = acc.*1.
Proof.
  revert acc. induction items as [|[k v] items IH]; intros acc Hsub Hrun.
  - simpl in Hrun. by injection Hrun as <-.
  - cbn [shard_items] in Hrun.
    assert (Hk : k ∈ acc.*1) by (apply Hsub; rewrite fmap_cons; apply elem_of_cons; by left).
    assert (Hrest : ∀ key, key ∈ items.*1 → key ∈ acc.*1).
    { intros key Hin. apply Hsub. rewrite fmap_cons. apply elem_of_cons. by right. }
    destruct v as [data|n rows]; simpl in Hrun.
    + by apply IH.
    + destruct (shard pad ws rank k (Tensor.Mat n rows)) as [piece| |]; [|done..].
      rewrite <- (dict_set_keys_elem k piece acc Hk).
      apply IH; [|done]. intros key Hin. rewrite (dict_set_keys_elem k piece acc Hk). by apply Hrest.
Qed.

End ShardLoopKeys.

(** X6. The sharding loop keeps the fields of the batch and their order;
    every field of two dimensions is replaced by the piece the rank keeps
    of it, and every field of fewer than two dimensions is left unchanged. *)
Theorem X6_shard_loop_fields
    (pad_token_id world_size rank : Z) (batch batch' : list (string * Tensor.t)) :
  NoDup batch.*1 →
  Collator.shard_items pad_token_id world_size rank batch batch = Ok batch' →
  batch'.*1 = batch.*1
  ∧ ∀ key value, (key, value) ∈ batch →
      match value with
      | Tensor.Low _ => Dict.get key batch' = Some value
      | Tensor.Mat _ _ =>
          ∃ piece,
            Collator.shard pad_token_id world_size rank key value = Ok piece
            ∧ Dict.get key batch' = Some piece
      end.
Proof.
  intros Hnd Hrun. split.
  - by eapply shard_items_keys.
  - by eapply shard_items_batch.
Qed.

Lemma X6_shard_loop_fields_witness :
  let batch :=
    [ ("input_ids", Tensor.Mat 3 [[5; 6; 7]]%Z);
      ("next_sentence_label", Tensor.Low [1%Z]) ] in
  let batch' :=
    [ ("input_ids", Tensor.Mat 2 [[7; 0]]%Z);
      ("next_sentence_label", Tensor.Low [1%Z]) ] in
  NoDup batch.*1
  ∧ Collator.shard_items 0 2 1 batch batch = Ok batch'
  ∧ batch'.*1 = batch.*1
  ∧ Dict.get "next_sentence_label" batch' = Some (Tensor.Low [1%Z])
  ∧ ∃ piece,
      Collator.shard 0 2 1 "input_ids" (Tensor.Mat 3 [[5; 6; 7]]%Z) = Ok piece
      ∧ Dict.get "input_ids" batch' = Some piece.
Proof.
  intros batch batch'.
  assert (Hnd : NoDup batch.*1)
    by (apply (bool_decide_unpack (NoDup batch.*1)); vm_compute; exact I).
  assert (Hrun : Collator.shard_items 0 2 1 batch batch = Ok batch') by (vm_compute; reflexivity).
  destruct (X6_shard_loop_fields 0 2 1 batch batch' Hnd Hrun) as [Hkeys Hfields].
  split; [exact Hnd|]. split; [exact Hrun|]. split; [exact Hkeys|]. split.
  - apply (Hfields "next_sentence_label" (Tensor.Low [1%Z])).
    apply elem_of_cons. right. apply elem_of_cons. by left.
  - apply (Hfields "input_ids" (Tensor.Mat 3 [[5; 6; 7]]%Z)).
    apply elem_of_cons. by left.
Defined.

Section ShardPieceFacts.
Import Collator.

Lemma ceil_div_divisible (n ws : Z) :
  (0 < ws)%Z → (n mod ws = 0)%Z → ((n + ws - 1) / ws = n / ws)%Z.
Proof.
  intros Hws Hm. pose proof (Z.div_mod n ws ltac:(lia)) as Hdm.
  symmetry. apply (Z.div_unique _ _ _ (ws - 1)); lia.
Qed.

Lemma ceil_div_nondivisible (n ws : Z) :
  (0 < ws)%Z → (n mod ws ≠ 0)%Z → ((n + ws - 1) / ws = n / ws + 1)%Z.
Proof.
  intros Hws Hm. pose proof (Z.div_mod n ws ltac:(lia)) as Hdm.
  pose proof (Z.mod_pos_bound n ws Hws).
  symmetry. apply (Z.div_unique _ _ _ (n mod ws - 1)); lia.
Qed.

(** The padded field, with the sequence length of a piece written as
    [ceil(n / world_size)]. *)
Lemma pad_for_split_ceil (pad ws : Z) (key : string) (n : nat) (rows : list (list Z)) :
  (0 < ws)%Z →
  let s := Z.to_nat ((Z.of_nat n + ws - 1) / ws) in
  n ≤ Z.to_nat ws * s
  ∧ pad_for_split pad ws key (Tensor.Mat n rows)
    = Ok (Tensor.Mat (Z.to_nat ws * s)
            ((λ row, row ++ replicate (Z.to_nat ws * s - n) (spec_fill_value pad key))
             <$> rows)).
Proof.
  intros Hws s. rewrite pad_for_split_pos by done.
  pose proof (Z.div_mod (Z.of_nat n) ws ltac:(lia)) as Hdm.
  pose proof (Z.div_pos (Z.of_nat n) ws ltac:(lia) Hws) as Hq.
  destruct (Z.eqb_spec (Z.of_nat n mod ws) 0) as [Hm|Hm].
  - assert (E : Z.to_nat ws * s = n).
    { unfold s. rewrite ceil_div_divisible by done.
      apply Nat2Z.inj. rewrite Nat2Z.inj_mul, !Z2Nat.id by lia. lia. }
    rewrite E, Nat.sub_diag. split; [done|]. do 2 f_equal.
    rewrite <- (list_fmap_id rows) at 1. apply list_fmap_ext.
    intros _ row _. simpl. by rewrite app_nil_r.
  - cbv zeta. pose proof (difference_pos (Z.of_nat n) ws Hws Hm) as Hd.
    assert (E1 : n + Z.to_nat ((Z.of_nat n / ws + 1) * ws - Z.of_nat n) = Z.to_nat ws * s).
    { unfold s. rewrite ceil_div_nondivisible by done.
      apply Nat2Z.inj. rewrite Nat2Z.inj_add, Nat2Z.inj_mul, !Z2Nat.id by lia. lia. }
    split; [lia|].
    replace (Z.to_nat ws * s - n)
      with (Z.to_nat ((Z.of_nat n / ws + 1) * ws - Z.of_nat n)) by lia.
    by rewrite E1.
Qed.

(** The piece of a rank: the columns [rank * s, (rank + 1) * s) of the
    padded field, for s = ceil(n / world_size). *)
Lemma shard_piece (pad ws rank : Z) (key : string) (n : nat) (rows : list (list Z)) :
  (0 < ws)%Z → (0 ≤ rank < ws)%Z →
  let s := Z.to_nat ((Z.of_nat n + ws - 1) / ws) in
  shard pad ws rank key (Tensor.Mat n rows)
  = Ok (Tensor.Mat s
          ((λ row, take s (drop (Z.to_nat rank * s)
                             (row ++ replicate (Z.to_nat ws * s - n)
                                       (spec_fill_value pad key))))
           <$> rows)).
Proof.
  intros Hws Hr s. destruct (pad_for_split_ceil pad ws key n rows Hws) as [_ Hp].
  rewrite (shard_of_padded _ _ _ _ _ _ _ Hp Hr). unfold Tensor.narrow.
  by rewrite <- list_fmap_compose.
Qed.

End ShardPieceFacts.

(** X7. For a positive world size and a rank in [0, world_size), the piece
    kept of a two-dimensional field of sequence length n has the same number
    of rows and the sequence length s = ceil(n / world_size); its rows are
    the columns rank*s .. (rank+1)*s - 1 of the rows padded on the right, to
    world_size * s columns, with the fill value of the field. *)
Theorem X7_shard_shape_and_content
    (pad_token_id world_size rank : Z) (key : string) (n : nat) (rows : list (list Z)) :
  (0 < world_size)%Z → (0 ≤ rank < world_size)%Z →
  Forall (λ row, length row = n) rows →
  let s := Z.to_nat ((Z.of_nat n + world_size - 1) / world_size) in
  ∃ piece_rows,
    Collator.shard pad_token_id world_size rank key (Tensor.Mat n rows)
    = Ok (Tensor.Mat s piece_rows)
    ∧ length piece_rows = length rows
    ∧ Forall (λ row, length row = s) piece_rows
    ∧ piece_rows
      = (λ row, take s (drop (Z.to_nat rank * s)
                          (row ++ replicate (Z.to_nat world_size * s - n)
                                    (spec_fill_value pad_token_id key))))
        <$> rows.
Proof.
  intros Hws Hr Hwf s. eexists. split; [by apply shard_piece|].
  split; [by rewrite length_fmap|]. split; [|done].
  destruct (pad_for_split_ceil pad_token_id world_size key n rows Hws) as [Hge _].
  fold s in Hge. apply Forall_fmap. eapply Forall_impl; [exact Hwf|].
  intros row Hrow. simpl in *.
  rewrite length_take, length_drop, length_app, length_replicate, Hrow.
  assert (Z.to_nat rank * s + s ≤ Z.to_nat world_size * s) by nia. lia.
Qed.

Lemma X7_shard_shape_and_content_witness :
  let rows := [[1; 2; 3; 4; 5]; [6; 7; 8; 9; 10]]%Z in
  Forall (λ row, length row = 5) rows
  ∧ ∃ piece_rows,
      Collator.shard 0 3 2 "labels" (Tensor.Mat 5 rows) = Ok (Tensor.Mat 2 piece_rows)
      ∧ length piece_rows = length rows
      ∧ Forall (λ row, length row = 2) piece_rows
      ∧ piece_rows
        = (λ row, take 2 (drop 4 (row ++ replicate 1 (spec_fill_value 0 "labels")))) <$> rows.
Proof.
  intros rows.
  assert (Hwf : Forall (λ row, length row = 5) rows) by (repeat constructor).
  split; [exact Hwf|].
  assert (H02 : (0 ≤ 2 < 3)%Z) by lia.
  exact (X7_shard_shape_and_content 0 3 2 "labels" 5 rows eq_refl H02 Hwf).
Defined.

(** X8. The round trip for every valid configuration: for a positive world
    size, the pieces that the ranks 0 .. world_size - 1 keep of a field,
    concatenated along the sequence dimension in rank order, are the padded
    field. *)
Theorem X8_shard_round_trip_any_world_size
    (pad_token_id world_size : Z) (key : string) (n : nat) (rows : list (list Z)) :
  (0 < world_size)%Z → Forall (λ row, length row = n) rows →
  ∃ padded pieces,
    Collator.pad_for_split pad_token_id world_size key (Tensor.Mat n rows) = Ok padded
    ∧ length pieces = Z.to_nat world_size
    ∧ Forall2 (λ r piece,
         Collator.shard pad_token_id world_size (Z.of_nat r) key (Tensor.Mat n rows)
         = Ok piece)
        (seq 0 (Z.to_nat world_size)) pieces
    ∧ Tensor.cat pieces = Ok padded.
Proof.
  intros Hws Hwf.
  destruct (shard_round_trip pad_token_id world_size key n rows Hws Hwf)
    as (padded & pieces & Hp & Hall & Hcat).
  exists padded, pieces. split; [done|]. split; [|done].
  apply Forall2_length in Hall. by rewrite length_seq in Hall.
Qed.

Lemma X8_shard_round_trip_any_world_size_witness :
  let rows := [[1; 2; 3; 4; 5]; [6; 7; 8; 9; 10]]%Z in
  Forall (λ row, length row = 5) rows
  ∧ ∃ padded pieces,
      Collator.pad_for_split 0 3 "input_ids" (Tensor.Mat 5 rows) = Ok padded
      ∧ length pieces = Z.to_nat 3
      ∧ Forall2 (λ r piece,
           Collator.shard 0 3 (Z.of_nat r) "input_ids" (Tensor.Mat 5 rows) = Ok piece)
          (seq 0 (Z.to_nat 3)) pieces
      ∧ Tensor.cat pieces = Ok padded.
Proof.
  intros rows.
  assert (Hwf : Forall (λ row, length row = 5) rows) by (repeat constructor).
  split; [exact Hwf|].
  exact (X8_shard_round_trip_any_world_size 0 3 "input_ids" 5 rows eq_refl Hwf).
Defined.

(** X9. A sequence-parallel group of one worker changes nothing: with a
    world size of 1, rank 0 (and rank -1, which Python reads from the end)
    keeps every two-dimensional field as it is. *)
Theorem X9_world_size_one_is_identity
    (pad_token_id : Z) (key : string) (n : nat) (rows : list (list Z)) :
  Forall (λ row, length row = n) rows →
  Collator.shard pad_token_id 1 0 key (Tensor.Mat n rows) = Ok (Tensor.Mat n rows)
  ∧ Collator.shard pad_token_id 1 (-1) key (Tensor.Mat n rows) = Ok (Tensor.Mat n rows).
Proof.
  intros Hwf.
  assert (H0 : Collator.shard pad_token_id 1 0 key (Tensor.Mat n rows)
               = Ok (Tensor.Mat n rows)).
  { rewrite shard_piece by lia. cbv zeta.
    replace (Z.of_nat n + 1 - 1)%Z with (Z.of_nat n) by lia.
    rewrite Z.div_1_r, Nat2Z.id. do 2 f_equal.
    rewrite <- (list_fmap_id rows) at 2. apply Forall_fmap_ext.
    eapply Forall_impl; [exact Hwf|]. intros row Hrow. simpl in *.
    change (Z.to_nat 0 * n) with 0. rewrite drop_0.
    rewrite take_app_le by lia. apply take_ge. lia. }
  split; [exact H0|].
  rewrite shard_rank_negative by lia. exact H0.
Qed.

Lemma X9_world_size_one_is_identity_witness :
  let rows := [[1; 2; 3]; [4; 5; 6]]%Z in
  Forall (λ row, length row = 3) rows
  ∧ Collator.shard 0 1 0 "input_ids" (Tensor.Mat 3 rows) = Ok (Tensor.Mat 3 rows)
  ∧ Collator.shard 0 1 (-1) "input_ids" (Tensor.Mat 3 rows) = Ok (Tensor.Mat 3 rows).
Proof.
  intros rows.
  assert (Hwf : Forall (λ row, length row = 3) rows) by (repeat constructor).
  split; [exact Hwf|].
  exact (X9_world_size_one_is_identity 0 "input_ids" 3 rows Hwf).
Defined.

(** X10. Padding reaches the trailing ranks only: a rank whose columns
    rank*s .. (rank+1)*s - 1 lie within the original sequence length keeps
    original data alone, the same for every field name and pad id. *)
Theorem X10_leading_shards_hold_data_only
    (pad_token_id world_size rank : Z) (key : string) (n : nat) (rows : list (list Z)) :
  (0 < world_size)%Z → (0 ≤ rank < world_size)%Z →
  Forall (λ row, length row = n) rows →
  let s := Z.to_nat ((Z.of_nat n + world_size - 1) / world_size) in
  (Z.to_nat rank + 1) * s ≤ n →
  Collator.shard pad_token_id world_size rank key (Tensor.Mat n rows)
  = Ok (Tensor.Mat s ((λ row, take s (drop (Z.to_nat rank * s) row)) <$> rows)).
Proof.
  intros Hws Hr Hwf s Hin. rewrite shard_piece by done. fold s. do 2 f_equal.
  apply Forall_fmap_ext. eapply Forall_impl; [exact Hwf|].
  intros row Hrow. simpl in *.
  rewrite drop_app_le by lia. rewrite take_app_le; [done|].
  rewrite length_drop. lia.
Qed.

Lemma X10_leading_shards_hold_data_only_witness :
  let rows := [[1; 2; 3; 4; 5]; [6; 7; 8; 9; 10]]%Z in
  Forall (λ row, length row = 5) rows
  ∧ (Z.to_nat 1 + 1) * 2 ≤ 5
  ∧ Collator.shard 0 3 1 "labels" (Tensor.Mat 5 rows)
    = Ok (Tensor.Mat 2 ((λ row, take 2 (drop 2 row)) <$> rows)).
Proof.
  intros rows.
  assert (Hwf : Forall (λ row, length row = 5) rows) by (repeat constructor).
  assert (Hin : (Z.to_nat 1 + 1) * 2 ≤ 5) by (vm_compute; lia).
  split; [exact Hwf|]. split; [exact Hin|].
  assert (H01 : (0 ≤ 1 < 3)%Z) by lia.
  exact (X10_leading_shards_hold_data_only 0 3 1 "labels" 5 rows eq_refl H01 Hwf Hin).
Defined.

Section CallFacts.
Import Collator.

Variable rng : Type.
Variable randbelow : Z → rng → Z * rng.
Variable random_lt_half : rng → bool * rng.
Variable build_inputs_with_special_tokens : list Z → list Z → list Z.
Variable create_token_type_ids_from_sequences : list Z → list Z → list Z.
Variable convert_ids_to_tokens : list Z → list string.
Variable _whole_word_mask : list string → M rng (list Z).
Variable tokenizer_pad : list Example → option Z → M rng (list (string * Tensor.t)).
Variable torch_mask_tokens : Tensor.t → Tensor.t → M rng (Tensor.t * Tensor.t).

(** The padded batch is a mapping: its field names are distinct. *)
Hypothesis tokenizer_pad_keys :
  ∀ examples multiple g batch g',
    tokenizer_pad examples multiple g = (Ok batch, g') → NoDup batch.*1.

(** X11. Every batch a call returns, sharded or not, has the fields
    [input_ids] and [labels] and has no field [mask_label]: the mask is
    consumed by the masking step and never reaches the caller. *)
Theorem X11_returned_batch_fields
    (self : t) (examples : list (gmap string (list Z)))
    (g g' : rng) (result : list (string * Tensor.t)) :
  __call__ rng randbelow random_lt_half build_inputs_with_special_tokens
    create_token_type_ids_from_sequences convert_ids_to_tokens _whole_word_mask
    tokenizer_pad torch_mask_tokens self examples g = (Ok result, g') →
  Dict.get "mask_label" result = None
  ∧ is_Some (Dict.get "labels" result)
  ∧ is_Some (Dict.get "input_ids" result).
Proof.
  unfold __call__. unfold bind at 1.
  destruct (_prepare_wwm_and_sop_from_examples _ _ _ _ _ _ _ examples g)
    as [[es| |] g1]; [|done..].
  unfold bind at 1.
  destruct (tokenizer_pad es (pad_to_multiple_of self) g1) as [[batch| |] g2] eqn:Hpad;
    [|done..].
  apply tokenizer_pad_keys in Hpad.
  unfold bind at 1. unfold lift at 1. unfold Dict.pop.
  destruct (Dict.get "mask_label" batch) as [mask|]; [|done].
  unfold bind at 1. unfold lift at 1. unfold Dict.item.
  destruct (Dict.get "input_ids" (Dict.remove "mask_label" batch)) as [ids|]; [|done].
  unfold bind at 1.
  destruct (torch_mask_tokens ids mask g2) as [[[ids' labels]| |] g3]; [|done..].
  cbn [fst snd].
  set (batch2 := Dict.set "labels" labels
                   (Dict.set "input_ids" ids' (Dict.remove "mask_label" batch))).
  assert (Hnd : NoDup batch2.*1) by (by apply dict_set_NoDup, dict_set_NoDup, dict_remove_NoDup).
  assert (Hmask : Dict.get "mask_label" batch2 = None).
  { unfold batch2. rewrite !dict_get_set_ne by done. by apply dict_get_remove_eq. }
  assert (Hlabels : Dict.get "labels" batch2 = Some labels)
    by apply dict_get_set_eq.
  assert (Hids : Dict.get "input_ids" batch2 = Some ids').
  { unfold batch2. rewrite dict_get_set_ne by done. apply dict_get_set_eq. }
  assert (Hshard : ∀ pad ws rank,
            shard_items pad ws rank batch2 batch2 = Ok result →
            Dict.get "mask_label" result = None
            ∧ is_Some (Dict.get "labels" result)
            ∧ is_Some (Dict.get "input_ids" result)).
  { intros pad ws rank Hrun.
    destruct (shard_items_lookup _ _ _ _ _ _ Hnd Hrun) as [H1 H2]. split; [|split].
    - rewrite H2; [done|]. by apply dict_get_None.
    - specialize (H1 _ _ (dict_get_Some_elem _ _ _ Hlabels)).
      destruct labels; [by rewrite H1, Hlabels|]. destruct H1 as (piece & _ & ->). done.
    - specialize (H1 _ _ (dict_get_Some_elem _ _ _ Hids)).
      destruct ids'; [by rewrite H1, Hids|]. destruct H1 as (piece & _ & ->). done. }
  destruct (parallel_context self) as [pc|].
  - destruct (local_world_size self) as [ws|]; [|done].
    destruct (local_rank self) as [rank|]; [|done].
    unfold lift. intros [= Hrun <-]. by eapply Hshard.
  - intros [= <- <-]. by rewrite Hmask, Hlabels, Hids.
Qed.

End CallFacts.

Lemma Toy_tokenizer_pad_keys (examples : list Collator.Example) (multiple : option Z)
    (g : Toy.rng) (batch : list (string * Tensor.t)) (g' : Toy.rng) :
  Toy.tokenizer_pad examples multiple g = (Ok batch, g') → NoDup batch.*1.
Proof.
  destruct examples as [|e examples]; [done|]. intros [= <- <-].
  apply (bool_decide_unpack (NoDup _)). vm_compute. exact I.
Qed.

Lemma X11_returned_batch_fields_witness :
  let self := Collator.Build None 0 (Some (Collator.Build_ParallelContext 1 4))
                (Some 1%Z) (Some 4%Z) in
  let examples : list (gmap string (list Z)) :=
    [ {[ "input_ids" := [11; 12; 13; 14; 15; 16; 17]%Z ]} ] in
  ∃ result g',
    Toy.collate self examples 0 = (Ok result, g')
    ∧ Dict.get "mask_label" result = None
    ∧ is_Some (Dict.get "labels" result)
    ∧ is_Some (Dict.get "input_ids" result).
Proof.
  intros self examples.
  destruct (Toy.collate self examples 0) as [[result| |] g'] eqn:Hrun;
    try (vm_compute in Hrun; discriminate Hrun).
  exists result, g'. split; [reflexivity|].
  exact (X11_returned_batch_fields Toy.rng Toy.randbelow Toy.random_lt_half
           Toy.build_inputs_with_special_tokens Toy.create_token_type_ids_from_sequences
           Toy.convert_ids_to_tokens Toy._whole_word_mask Toy.tokenizer_pad
           Toy.torch_mask_tokens Toy_tokenizer_pad_keys self examples 0 g' result Hrun).
Defined.

(** X12. For a positive world size the padding step always succeeds on a
    well-formed field, and its result has a sequence length that is a
    multiple of the world size, at least the original length and less than
    the original length plus the world size; every row keeps its original
    ids as a prefix. *)
Theorem X12_padding_is_minimal_and_keeps_data
    (pad_token_id world_size : Z) (key : string) (n : nat) (rows : list (list Z)) :
  (0 < world_size)%Z → Forall (λ row, length row = n) rows →
  ∃ m rows',
    Collator.pad_for_split pad_token_id world_size key (Tensor.Mat n rows)
    = Ok (Tensor.Mat m rows')
    ∧ (Z.of_nat m mod world_size = 0)%Z
    ∧ n ≤ m
    ∧ (Z.of_nat m < Z.of_nat n + world_size)%Z
    ∧ Forall2 (λ row row', length row' = m ∧ take n row' = row) rows rows'.
Proof.
  intros Hws Hwf.
  destruct (pad_for_split_ceil pad_token_id world_size key n rows Hws) as [Hge Hp].
  cbv zeta in Hge, Hp.
  set (s := Z.to_nat ((Z.of_nat n + world_size - 1) / world_size)) in *.
  eexists _, _. split; [exact Hp|].
  assert (Hs : (0 ≤ (Z.of_nat n + world_size - 1) / world_size)%Z)
    by (apply Z.div_pos; lia).
  assert (Hm : Z.of_nat (Z.to_nat world_size * s)
               = ((Z.of_nat n + world_size - 1) / world_size * world_size)%Z).
  { unfold s. rewrite Nat2Z.inj_mul, !Z2Nat.id by lia. lia. }
  split; [rewrite Hm; apply Z.mod_mul; lia|]. split; [done|]. split.
  - rewrite Hm.
    pose proof (Z.mul_div_le (Z.of_nat n + world_size - 1) world_size Hws). lia.
  - apply Forall2_fmap_r, Forall_Forall2_diag.
    eapply Forall_impl; [exact Hwf|]. intros row Hrow. simpl in *. split.
    + rewrite length_app, length_replicate. lia.
    + rewrite take_app_le by lia. apply take_ge. lia.
Qed.

Lemma X12_padding_is_minimal_and_keeps_data_witness :
  let rows := [[1; 2; 3; 4; 5]; [6; 7; 8; 9; 10]]%Z in
  Forall (λ row, length row = 5) rows
  ∧ ∃ m rows',
      Collator.pad_for_split 0 3 "attention_mask" (Tensor.Mat 5 rows)
      = Ok (Tensor.Mat m rows')
      ∧ (Z.of_nat m mod 3 = 0)%Z
      ∧ 5 ≤ m
      ∧ (Z.of_nat m < Z.of_nat 5 + 3)%Z
      ∧ Forall2 (λ row row', length row' = m ∧ take 5 row' = row) rows rows'.
Proof.
  intros rows.
  assert (Hwf : Forall (λ row, length row = 5) rows) by (repeat constructor).
  split; [exact Hwf|].
  exact (X12_padding_is_minimal_and_keeps_data 0 3 "attention_mask" 5 rows eq_refl Hwf).
Defined.
